(** * pw-hub-tactics: room synchronisation and canvas history

    A shallow embedding of the synchronisation core of the repository:
    - [JSMap]         the insertion-ordered ECMAScript [Map] the server
                      stores objects in;
    - [RoomManager]   server/src/rooms/RoomManager.ts;
    - [Relay]         the socket handlers of server/dist/index.js;
    - [RoomSync]      client/src/hooks/useRoomSync.ts and the drag handlers
                      of components/TacticsMap.tsx that drive it;
    - [CanvasHistory] the hook useCanvasHistory;
    - [Drawing]       the places of DrawingCanvas.tsx and
                      TacticsMapWithDrawing that feed server state into the
                      history hook.

    JavaScript numbers used as coordinates are only ever copied, never
    computed with, so they are an abstract type [num]; whatever extra keys
    an object carries besides [id], [x], [y], [type] travel in an abstract
    [rest] component.  Timestamps ([Date.now()]) are integers, modelled in
    [Z]. *)

From Stdlib Require Import ZArith Lia.
From stdpp Require Import base strings list gmap.

Local Open Scope string_scope.
Local Open Scope list_scope.
Local Open Scope nat_scope.

(** ** types/socket-events.ts *)

Module ObjectPosition.
Record t {num : Type} := mk { x : num; y : num }.
Arguments t : clear implicits.
End ObjectPosition.

Module RoomObject.
Record t {num extra : Type} :=
  mk { id : string; x : num; y : num; type : string; rest : extra }.
Arguments t : clear implicits.

(** The object literal [{ ...obj, x: position.x, y: position.y }]; it is
    also what the in-place assignments [object.x = position.x;
    object.y = position.y] leave in the object. *)
Definition with_position {num extra} (obj : t num extra)
    (position : ObjectPosition.t num) : t num extra :=
  {| id := id obj;
     x := ObjectPosition.x position;
     y := ObjectPosition.y position;
     type := type obj;
     rest := rest obj |}.
End RoomObject.

Module UpdateObjectPayload.
Record t {num : Type} :=
  mk { objectId : string; position : ObjectPosition.t num }.
Arguments t : clear implicits.
End UpdateObjectPayload.

Module SocketEvents.
Section Events.
Context {num extra : Type}.

(** ClientToServerEvents.  [join_room] and [delete_object] carry a
    one-field payload, given here by that field. *)
Inductive ClientToServerEvents :=
| join_room (roomId : string)
| update_object (payload : UpdateObjectPayload.t num)
| create_object (payload : RoomObject.t num extra)
| delete_object (objectId : string)
| ping.

(** ServerToClientEvents. *)
Inductive ServerToClientEvents :=
| object_updated (payload : UpdateObjectPayload.t num)
| object_created (payload : RoomObject.t num extra)
| object_deleted (objectId : string)
| room_state (objects : list (RoomObject.t num extra))
| pong.

End Events.
Arguments ClientToServerEvents : clear implicits.
Arguments ServerToClientEvents : clear implicits.
End SocketEvents.

(** ** The ECMAScript Map

    A [Map] keeps its entries in insertion order, one entry per key.  The
    entries are a list of pairs, oldest first. *)

Module JSMap.
Section JSMap.
Context {K V : Type} `{EqDecision K}.

(** [new Map()] *)
Definition empty : list (K * V) := [].

(** [m.get(k)], [None] standing for [undefined]. *)
Fixpoint get (k : K) (m : list (K * V)) : option V :=
  match m with
  | [] => None
  | (k', v) :: m' => if decide (k' = k) then Some v else get k m'
  end.

(** [m.has(k)] *)
Definition has (k : K) (m : list (K * V)) : bool :=
  match get k m with Some _ => true | None => false end.

(** [m.set(k, v)]: a present key keeps its place and takes the new value,
    a new key goes to the end. *)
Fixpoint set (k : K) (v : V) (m : list (K * V)) : list (K * V) :=
  match m with
  | [] => [(k, v)]
  | (k', v') :: m' =>
      if decide (k' = k) then (k, v) :: m' else (k', v') :: set k v m'
  end.

(** [m.delete(k)]: the entry is removed, the result tells whether there
    was one. *)
Fixpoint delete (k : K) (m : list (K * V)) : bool * list (K * V) :=
  match m with
  | [] => (false, [])
  | (k', v') :: m' =>
      if decide (k' = k) then (true, m')
      else let '(b, r) := delete k m' in (b, (k', v') :: r)
  end.

(** [Array.from(m.values())] *)
Definition values (m : list (K * V)) : list V := m.*2.

(** What the runtime guarantees of every [Map]: no key twice. *)
Definition wf (m : list (K * V)) : Prop := NoDup m.*1.

End JSMap.
End JSMap.

(** ** server/src/rooms/RoomManager.ts *)

Module RoomManager.
Section RoomManager.
Context {num extra : Type}.

(** interface RoomState; [objects] is a [Map<string, RoomObject>]. *)
Record RoomState := mkRoomState {
  roomId : string;
  objects : list (string * RoomObject.t num extra)
}.

(** The one field of the class, [rooms: Map<string, RoomState>].  The rooms
    are never enumerated, so their order is not kept. *)
Record t := mk { rooms : gmap string RoomState }.

(** [new RoomManager()] *)
Definition new : t := mk ∅.

(** Every method returns its result together with the manager it leaves
    behind. *)

Definition getOrCreateRoom (roomId : string) (this : t) : RoomState * t :=
  match rooms this !! roomId with
  | Some room => (room, this)
  | None =>
      let room := mkRoomState roomId JSMap.empty in
      (room, mk (<[roomId := room]> (rooms this)))
  end.

(** [room.objects.set(object.id, object)] on the room just fetched; the
    room changed is the one held in [rooms]. *)
Definition addObject (roomId : string) (object : RoomObject.t num extra)
    (this : t) : t :=
  let '(room, this') := getOrCreateRoom roomId this in
  mk (<[roomId :=
         mkRoomState (RoomManager.roomId room)
           (JSMap.set (RoomObject.id object) object (objects room))]>
      (rooms this')).

Definition updateObjectPosition (roomId objectId : string)
    (position : ObjectPosition.t num) (this : t) : bool * t :=
  match rooms this !! roomId with
  | None => (false, this)
  | Some room =>
      match JSMap.get objectId (objects room) with
      | None => (false, this)
      | Some object =>
          (true,
           mk (<[roomId :=
                  mkRoomState (RoomManager.roomId room)
                    (JSMap.set objectId
                       (RoomObject.with_position object position)
                       (objects room))]>
               (rooms this)))
      end
  end.

Definition deleteObject (roomId objectId : string) (this : t) : bool * t :=
  match rooms this !! roomId with
  | None => (false, this)
  | Some room =>
      let '(found, objects') := JSMap.delete objectId (objects room) in
      (found,
       mk (<[roomId := mkRoomState (RoomManager.roomId room) objects']>
           (rooms this)))
  end.

Definition getRoomObjects (roomId : string) (this : t)
    : list (RoomObject.t num extra) :=
  match rooms this !! roomId with
  | None => []
  | Some room => JSMap.values (objects room)
  end.

Definition deleteRoom (roomId : string) (this : t) : t :=
  mk (base.delete roomId (rooms this)).

Definition hasRoom (roomId : string) (this : t) : bool :=
  bool_decide (is_Some (rooms this !! roomId)).

End RoomManager.
Arguments RoomState : clear implicits.
Arguments t : clear implicits.
End RoomManager.

(** ** server/dist/index.js

    One [Socket] record per live connection: [data_roomId] is
    [socket.data.roomId] ([None] for [undefined]) and [joined] the
    socket.io rooms the connection is a member of.  socket.io puts every
    socket into the room named by its own id when it connects, and
    [socket.join] only ever adds rooms. *)

Module Relay.
Import SocketEvents.
Section Relay.
Context {num extra : Type}.

Record Socket := mkSocket {
  data_roomId : option string;
  joined : gset string
}.

(** The module-level singleton [roomManager] and the sockets of [io]. *)
Record t := mk {
  roomManager : RoomManager.t num extra;
  sockets : gmap string Socket
}.

Definition init : t := mk RoomManager.new ∅.

(** What a handler does besides changing the state. *)
Inductive Effect :=
| socket_emit (ev : ServerToClientEvents num extra)
    (* socket.emit(ev): to the handling socket only *)
| socket_to_emit (roomId : string) (ev : ServerToClientEvents num extra)
    (* socket.to(roomId).emit(ev): to the room, the handling socket left out *)
| console_log (line : string)
| console_warn (line : string).

(** The test [if (!roomId)]: [undefined] and the empty string are falsy. *)
Definition truthy (roomId : option string) : option string :=
  match roomId with
  | Some r => if decide (r = "") then None else Some r
  | None => None
  end.

(** [io.on('connection', (socket) => ...)] *)
Definition on_connection (id : string) (st : t) : t * list Effect :=
  (mk (roomManager st) (<[id := mkSocket None {[id]}]> (sockets st)),
   [console_log ("A user connected: " +:+ id)]).

(** [socket.on('join_room', ...)] *)
Definition on_join_room (id : string) (socket : Socket) (roomId : string)
    (st : t) : t * list Effect :=
  let socket' := mkSocket (Some roomId) ({[roomId]} ∪ joined socket) in
  let '(_, manager') := RoomManager.getOrCreateRoom roomId (roomManager st) in
  let objects := RoomManager.getRoomObjects roomId manager' in
  (mk manager' (<[id := socket']> (sockets st)),
   [socket_emit (room_state objects);
    console_log ("User " +:+ id +:+ " joined room " +:+ roomId)]).

(** [socket.on('update_object', ...)] *)
Definition on_update_object (id : string) (socket : Socket)
    (payload : UpdateObjectPayload.t num) (st : t) : t * list Effect :=
  match truthy (data_roomId socket) with
  | None =>
      (st, [console_warn ("User " +:+ id +:+
                          " tried to update object without joining a room")])
  | Some roomId =>
      let '(updated, manager') :=
        RoomManager.updateObjectPosition roomId
          (UpdateObjectPayload.objectId payload)
          (UpdateObjectPayload.position payload) (roomManager st) in
      (mk manager' (sockets st),
       if updated then [socket_to_emit roomId (object_updated payload)]
       else [])
  end.

(** [socket.on('create_object', ...)] *)
Definition on_create_object (id : string) (socket : Socket)
    (payload : RoomObject.t num extra) (st : t) : t * list Effect :=
  match truthy (data_roomId socket) with
  | None =>
      (st, [console_warn ("User " +:+ id +:+
                          " tried to create object without joining a room")])
  | Some roomId =>
      (mk (RoomManager.addObject roomId payload (roomManager st)) (sockets st),
       [socket_to_emit roomId (object_created payload)])
  end.

(** [socket.on('ping', ...)] *)
Definition on_ping (id : string) (st : t) : t * list Effect :=
  (st, [console_log ("Received ping from " +:+ id); socket_emit pong]).

(** [socket.on('disconnect', ...)]; socket.io has by then taken the socket
    out of every room. *)
Definition on_disconnect (id : string) (st : t) : t * list Effect :=
  (mk (roomManager st) (base.delete id (sockets st)),
   [console_log ("User disconnected: " +:+ id)]).

(** What reaches the server from the connection [id]. *)
Inductive Incoming :=
| connection
| event (ev : ClientToServerEvents num extra)
| disconnect.

(** The listeners registered in [io.on('connection')]: [join_room],
    [update_object], [create_object], [ping], [disconnect].  No listener is
    registered for [delete_object], and socket.io drops an event that has no
    listener; nothing arrives from a connection that is not open. *)
Definition handle (id : string) (inc : Incoming) (st : t) : t * list Effect :=
  match inc with
  | connection => on_connection id st
  | disconnect =>
      match sockets st !! id with
      | Some _ => on_disconnect id st
      | None => (st, [])
      end
  | event ev =>
      match sockets st !! id with
      | None => (st, [])
      | Some socket =>
          match ev with
          | join_room roomId => on_join_room id socket roomId st
          | update_object payload => on_update_object id socket payload st
          | create_object payload => on_create_object id socket payload st
          | delete_object _ => (st, [])
          | ping => on_ping id st
          end
      end
  end.

(** The server's run over what arrives, in arrival order (one handler runs
    to completion before the next). *)
Fixpoint run (trace : list (string * Incoming)) (st : t) : t :=
  match trace with
  | [] => st
  | (id, inc) :: trace' => run trace' (handle id inc st).1
  end.

(** The members of the socket.io room [roomId]. *)
Definition members (roomId : string) (st : t) : gset string :=
  dom (filter (λ kv, roomId ∈ joined kv.2) (sockets st)).

(** The connections an effect of a handler run for [id] delivers to, and
    the event delivered. *)
Definition receivers (id : string) (st : t) (e : Effect) : gset string :=
  match e with
  | socket_emit _ => {[id]}
  | socket_to_emit roomId _ => members roomId st ∖ {[id]}
  | console_log _ | console_warn _ => ∅
  end.

Definition delivered (e : Effect) : option (ServerToClientEvents num extra) :=
  match e with
  | socket_emit ev | socket_to_emit _ ev => Some ev
  | console_log _ | console_warn _ => None
  end.

(** An effect that only writes to the server's console. *)
Definition is_console (e : Effect) : bool :=
  match e with
  | console_log _ | console_warn _ => true
  | socket_emit _ | socket_to_emit _ _ => false
  end.

(** The room the mutation handlers of connection [id] act on: the truthy
    [socket.data.roomId] of an open connection. *)
Definition room_of (id : string) (st : t) : option string :=
  sockets st !! id ≫= λ socket, truthy (data_roomId socket).

(** [receiver] is sent [ev] by the effects [effs] of a handler run for
    [id]. *)
Definition gets (id : string) (st : t) (effs : list Effect)
    (receiver : string) (ev : ServerToClientEvents num extra) : Prop :=
  ∃ e, e ∈ effs ∧ delivered e = Some ev ∧ receiver ∈ receivers id st e.

(** [id] sends no [join_room] anywhere in the trace. *)
Definition is_join (id : string) (arrival : string * Incoming) : bool :=
  match arrival with
  | (id', event (join_room _)) => bool_decide (id' = id)
  | _ => false
  end.

Definition never_joined (id : string) (trace : list (string * Incoming)) : bool :=
  forallb (λ arrival, negb (is_join id arrival)) trace.

(** The two mutation requests the server listens to. *)
Definition is_mutation (ev : ClientToServerEvents num extra) : bool :=
  match ev with
  | update_object _ | create_object _ => true
  | join_room _ | delete_object _ | ping => false
  end.

(** Connection [id], if open, has no [socket.data.roomId]. *)
Definition unjoined (id : string) (st : t) : Prop :=
  match sockets st !! id with
  | Some socket => data_roomId socket = None
  | None => True
  end.

End Relay.
Arguments Socket : clear implicits.
Arguments t : clear implicits.
Arguments Effect : clear implicits.
Arguments Incoming : clear implicits.
End Relay.

(** ** client/src/hooks/useRoomSync.ts *)

Module RoomSync.
Import SocketEvents.
Section RoomSync.
Context {num extra : Type}.

(** Интервал throttle для отправки событий перемещения (мс). *)
Definition THROTTLE_INTERVAL : Z := 16.

(** The state of one mounted hook: [socketRef] tells whether
    [socketRef.current] holds the socket ([false] for [null]), and
    [lastEmitTimeRef] is the [Map<string, number>] of last emission times,
    only ever read by key. *)
Record t := mk {
  socketRef : bool;
  objects : list (RoomObject.t num extra);
  isConnected : bool;
  lastEmitTimeRef : gmap string Z
}.

(** The state after the mounting effect has created the socket. *)
Definition mounted : t := mk true [] false ∅.

(** The array of the [prev.map(...)] of [object_updated] and
    [updateObjectLocal]. *)
Definition moved (objectId : string) (position : ObjectPosition.t num)
    (prev : list (RoomObject.t num extra)) : list (RoomObject.t num extra) :=
  (λ obj, if decide (RoomObject.id obj = objectId)
          then RoomObject.with_position obj position else obj) <$> prev.

(** Each handler returns the new state and what it emits to the server. *)

(** [socket.on('connect', ...)] *)
Definition on_connect (roomId : string) (st : t)
    : t * list (ClientToServerEvents num extra) :=
  (mk (socketRef st) (objects st) true (lastEmitTimeRef st),
   [join_room roomId]).

(** [socket.on('disconnect', ...)] *)
Definition on_disconnect (st : t) : t :=
  mk (socketRef st) (objects st) false (lastEmitTimeRef st).

(** [socket.on('room_state', ...)] *)
Definition on_room_state (roomObjects : list (RoomObject.t num extra))
    (st : t) : t :=
  mk (socketRef st) roomObjects (isConnected st) (lastEmitTimeRef st).

(** [socket.on('object_updated', ...)] *)
Definition on_object_updated (payload : UpdateObjectPayload.t num) (st : t) : t :=
  mk (socketRef st)
     (moved (UpdateObjectPayload.objectId payload)
            (UpdateObjectPayload.position payload) (objects st))
     (isConnected st) (lastEmitTimeRef st).

(** [socket.on('object_created', ...)] *)
Definition on_object_created (newObject : RoomObject.t num extra) (st : t) : t :=
  mk (socketRef st) (objects st ++ [newObject]) (isConnected st)
     (lastEmitTimeRef st).

(** [emitUpdateObject]; [now] is the value [Date.now()] returns in the
    call.  [get(objectId) || 0] reads 0 when nothing is recorded. *)
Definition emitUpdateObject (objectId : string)
    (position : ObjectPosition.t num) (now : Z) (st : t)
    : t * list (ClientToServerEvents num extra) :=
  if negb (socketRef st) || negb (isConnected st) then (st, [])
  else
    let lastEmitTime := default 0%Z (lastEmitTimeRef st !! objectId) in
    if (THROTTLE_INTERVAL <=? now - lastEmitTime)%Z then
      (mk (socketRef st) (objects st) (isConnected st)
          (<[objectId := now]> (lastEmitTimeRef st)),
       [update_object (UpdateObjectPayload.mk num objectId position)])
    else (st, []).

(** [emitUpdateObjectForce] *)
Definition emitUpdateObjectForce (objectId : string)
    (position : ObjectPosition.t num) (now : Z) (st : t)
    : t * list (ClientToServerEvents num extra) :=
  if negb (socketRef st) || negb (isConnected st) then (st, [])
  else
    (mk (socketRef st) (objects st) (isConnected st)
        (<[objectId := now]> (lastEmitTimeRef st)),
     [update_object (UpdateObjectPayload.mk num objectId position)]).

(** [createObject] *)
Definition createObject (object : RoomObject.t num extra) (st : t)
    : t * list (ClientToServerEvents num extra) :=
  (mk (socketRef st) (objects st ++ [object]) (isConnected st)
      (lastEmitTimeRef st),
   if socketRef st && isConnected st then [create_object object] else []).

(** [updateObjectLocal] *)
Definition updateObjectLocal (objectId : string)
    (position : ObjectPosition.t num) (st : t) : t :=
  mk (socketRef st) (moved objectId position (objects st)) (isConnected st)
     (lastEmitTimeRef st).

(** components/TacticsMap.tsx, [handleDragMove] and [handleDragEnd], from
    the position [constrained] that [boundBox] has produced: the local
    update, then the throttled (resp. forced) emission. *)
Definition handleDragMove (id : string) (constrained : ObjectPosition.t num)
    (now : Z) (st : t) : t * list (ClientToServerEvents num extra) :=
  emitUpdateObject id constrained now (updateObjectLocal id constrained st).

Definition handleDragEnd (id : string) (constrained : ObjectPosition.t num)
    (now : Z) (st : t) : t * list (ClientToServerEvents num extra) :=
  emitUpdateObjectForce id constrained now (updateObjectLocal id constrained st).

(** Two drag moves of the same object, at [t1] and then at [t2]: the final
    state and everything emitted. *)
Definition two_moves (id : string) (p1 p2 : ObjectPosition.t num)
    (t1 t2 : Z) (st : t) : t * list (ClientToServerEvents num extra) :=
  let '(st1, out1) := handleDragMove id p1 t1 st in
  let '(st2, out2) := handleDragMove id p2 t2 st1 in
  (st2, out1 ++ out2).

End RoomSync.
Arguments t : clear implicits.
End RoomSync.

(** ** The hook useCanvasHistory

    [objects] is the React state, [undoStackRef] and [redoStackRef] the two
    refs; the top of a stack is the last element of its array.  The
    callbacks [pushState], [undo] and [redo] are re-created whenever
    [objects] changes, so a callback taken from the latest render closes
    over the current [objects]; every action below is such a call. *)

Module CanvasHistory.
Section CanvasHistory.
Context {CanvasObject : Type}.

(** Максимальное количество шагов в истории *)
Definition MAX_HISTORY_SIZE : Z := 20.

(** [Array.prototype.slice(start, end)] with the relative indices of the
    language: a negative index counts from the end, and both are clamped to
    the array. *)
Definition relative_index (i : Z) (len : nat) : nat :=
  if (i <? 0)%Z then Z.to_nat (Z.max (Z.of_nat len + i) 0)
  else Z.to_nat (Z.min i (Z.of_nat len)).

Definition slice {A} (start : Z) (end_ : option Z) (l : list A) : list A :=
  let k := relative_index start (length l) in
  let final :=
    match end_ with
    | Some e => relative_index e (length l)
    | None => length l
    end in
  take (final - k) (drop k l).

Record t := mk {
  objects : list CanvasObject;
  undoStackRef : list (list CanvasObject);
  redoStackRef : list (list CanvasObject)
}.

(** [useCanvasHistory(initialObjects)] at its first render. *)
Definition useCanvasHistory (initialObjects : list CanvasObject) : t :=
  mk initialObjects [] [].

(** The [state] part of what the hook returns. *)
Definition canUndo (h : t) : bool := bool_decide (0 < length (undoStackRef h)).
Definition canRedo (h : t) : bool := bool_decide (0 < length (redoStackRef h)).
Definition undoCount (h : t) : nat := length (undoStackRef h).
Definition redoCount (h : t) : nat := length (redoStackRef h).

Definition pushState (newObjects : list CanvasObject) (h : t) : t :=
  mk newObjects
     (slice (- (MAX_HISTORY_SIZE - 1)) None (undoStackRef h) ++ [objects h])
     [].

(** [undo]: [None] is the [null] returned on an empty stack; otherwise
    [last] reads [undoStackRef.current[length - 1]]. *)
Definition undo (h : t) : option (list CanvasObject) * t :=
  match last (undoStackRef h) with
  | None => (None, h)
  | Some previousState =>
      (Some previousState,
       mk previousState
          (slice 0 (Some (-1)%Z) (undoStackRef h))
          (redoStackRef h ++ [objects h]))
  end.

Definition redo (h : t) : option (list CanvasObject) * t :=
  match last (redoStackRef h) with
  | None => (None, h)
  | Some nextState =>
      (Some nextState,
       mk nextState
          (undoStackRef h ++ [objects h])
          (slice 0 (Some (-1)%Z) (redoStackRef h)))
  end.

Definition setObjectsWithoutHistory (newObjects : list CanvasObject) (h : t) : t :=
  mk newObjects (undoStackRef h) (redoStackRef h).

Definition clearHistory (h : t) : t := mk (objects h) [] [].

(** The five actions of [CanvasHistoryActions], and a sequence of calls. *)
Inductive Action :=
| PushState (newObjects : list CanvasObject)
| Undo
| Redo
| SetObjectsWithoutHistory (newObjects : list CanvasObject)
| ClearHistory.

Definition act (a : Action) (h : t) : t :=
  match a with
  | PushState newObjects => pushState newObjects h
  | Undo => (undo h).2
  | Redo => (redo h).2
  | SetObjectsWithoutHistory newObjects => setObjectsWithoutHistory newObjects h
  | ClearHistory => clearHistory h
  end.

Definition acts (l : list Action) (h : t) : t := foldl (λ h a, act a h) h l.

End CanvasHistory.
Arguments t : clear implicits.
Arguments Action : clear implicits.
End CanvasHistory.

(** ** Server state entering the history hook

    components/DrawingCanvas.tsx (the [externalObjects] effect) and the
    socket listeners and drag handler of TacticsMapWithDrawing.  The
    listeners are registered by an effect that depends on [roomId] only, so
    the object list they read, [historyState.objects], is the one of the
    render that registered them: it is the argument [seen]. *)

Module Drawing.
Section Drawing.
Context {num extra : Type}.

(** [roomObjectToCanvasObject] is a cast: a canvas object is a room object. *)
Definition roomObjectToCanvasObject (obj : RoomObject.t num extra)
    : RoomObject.t num extra := obj.

(** DrawingCanvas: [if (externalObjects) setObjectsWithoutHistory(...)]. *)
Definition externalObjects_effect
    (externalObjects : option (list (RoomObject.t num extra)))
    (h : CanvasHistory.t (RoomObject.t num extra))
    : CanvasHistory.t (RoomObject.t num extra) :=
  match externalObjects with
  | Some objs => CanvasHistory.setObjectsWithoutHistory objs h
  | None => h
  end.

(** What a peer or the join checkpoint sends. *)
Definition on_server_event (seen : list (RoomObject.t num extra))
    (ev : SocketEvents.ServerToClientEvents num extra)
    (h : CanvasHistory.t (RoomObject.t num extra))
    : CanvasHistory.t (RoomObject.t num extra) :=
  match ev with
  | SocketEvents.room_state roomObjects =>
      CanvasHistory.setObjectsWithoutHistory
        (roomObjectToCanvasObject <$> roomObjects) h
  | SocketEvents.object_created newObject =>
      CanvasHistory.setObjectsWithoutHistory
        (seen ++ [roomObjectToCanvasObject newObject]) h
  | SocketEvents.object_deleted objectId =>
      CanvasHistory.setObjectsWithoutHistory
        (filter (λ obj, RoomObject.id obj ≠ objectId) seen) h
  | SocketEvents.object_updated payload =>
      CanvasHistory.setObjectsWithoutHistory
        (RoomSync.moved (UpdateObjectPayload.objectId payload)
                        (UpdateObjectPayload.position payload) seen) h
  | SocketEvents.pong => h   (* no listener *)
  end.

(** TacticsMapWithDrawing, [emitDeleteObject]; [socket] tells whether
    [socketRef.current] holds the socket. *)
Definition emitDeleteObject (socket isConnected : bool) (objectId : string)
    : list (SocketEvents.ClientToServerEvents num extra) :=
  if socket && isConnected then [SocketEvents.delete_object objectId] else [].

(** [handleObjectDelete], the eraser: a committed local change, then the
    request to the server. *)
Definition handleObjectDelete (socket isConnected : bool) (id : string)
    (h : CanvasHistory.t (RoomObject.t num extra))
    : CanvasHistory.t (RoomObject.t num extra)
      * list (SocketEvents.ClientToServerEvents num extra) :=
  (CanvasHistory.pushState
     (filter (λ obj, RoomObject.id obj ≠ id) (CanvasHistory.objects h)) h,
   emitDeleteObject socket isConnected id).

End Drawing.
End Drawing.

(** ** Sequences of store operations, and the reference map

    [Op] is one mutation of a room; [run] applies a sequence of them to one
    room through the [RoomManager].  [reference] is the model the store is
    compared with: the same operations folded over a plain finite map from
    id to object. *)

Module StoreModel.
Section StoreModel.
Context {num extra : Type}.

Inductive Op :=
| create (object : RoomObject.t num extra)
| update (objectId : string) (position : ObjectPosition.t num)
| delete (objectId : string).

Definition apply (roomId : string) (this : RoomManager.t num extra) (op : Op)
    : RoomManager.t num extra :=
  match op with
  | create object => RoomManager.addObject roomId object this
  | update objectId position =>
      (RoomManager.updateObjectPosition roomId objectId position this).2
  | delete objectId => (RoomManager.deleteObject roomId objectId this).2
  end.

Definition run (roomId : string) (ops : list Op)
    (this : RoomManager.t num extra) : RoomManager.t num extra :=
  foldl (apply roomId) this ops.

(** The reference: create inserts or overwrites by id, update moves an
    object that is there and does nothing otherwise, delete removes. *)
Definition reference_step (m : gmap string (RoomObject.t num extra)) (op : Op)
    : gmap string (RoomObject.t num extra) :=
  match op with
  | create object => <[RoomObject.id object := object]> m
  | update objectId position =>
      match m !! objectId with
      | Some object =>
          <[objectId := RoomObject.with_position object position]> m
      | None => m
      end
  | delete objectId => base.delete objectId m
  end.

Definition reference (ops : list Op) : gmap string (RoomObject.t num extra) :=
  foldl reference_step ∅ ops.

(** A list of objects read as a map from id to object. *)
Definition by_id (l : list (RoomObject.t num extra))
    : gmap string (RoomObject.t num extra) :=
  list_to_map ((λ obj, (RoomObject.id obj, obj)) <$> l).

(** The object a room holds under an id, if the room and the object
    exist. *)
Definition find (roomId objectId : string) (this : RoomManager.t num extra)
    : option (RoomObject.t num extra) :=
  RoomManager.rooms this !! roomId ≫=
    λ room, JSMap.get objectId (RoomManager.objects room).

(** What the manager holds for a room, as a map read off the room's [Map];
    an absent room holds nothing. *)
Definition contents (roomId : string) (this : RoomManager.t num extra)
    : gmap string (RoomObject.t num extra) :=
  match RoomManager.rooms this !! roomId with
  | Some room => list_to_map (RoomManager.objects room)
  | None => ∅
  end.

(** The room's [Map] is a map (one entry per key) and files every object
    under its own id. *)
Definition consistent (roomId : string) (this : RoomManager.t num extra) : Prop :=
  match RoomManager.rooms this !! roomId with
  | Some room =>
      JSMap.wf (RoomManager.objects room) ∧
      Forall (λ kv, kv.1 = RoomObject.id kv.2) (RoomManager.objects room)
  | None => True
  end.

End StoreModel.
Arguments Op : clear implicits.
End StoreModel.

(** ** From the relay to the mirrors

    What one connection is sent by a handler run, and what the listeners of
    useRoomSync do with it. *)

Module Wire.
Import SocketEvents.
Section Wire.
Context {num extra : Type}.

(** The events the connection [receiver] is sent by the handler run [out]
    made for [id], in the order they are sent. *)
Definition inbox (receiver id : string)
    (out : Relay.t num extra * list (Relay.Effect num extra))
    : list (ServerToClientEvents num extra) :=
  omap (λ e, if decide (receiver ∈ Relay.receivers id out.1 e)
             then Relay.delivered e else None) out.2.

(** The listeners useRoomSync registers for server events: [room_state],
    [object_updated] and [object_created]; an event without a listener is
    dropped. *)
Definition receive (mirror : RoomSync.t num extra)
    (ev : ServerToClientEvents num extra) : RoomSync.t num extra :=
  match ev with
  | room_state roomObjects => RoomSync.on_room_state roomObjects mirror
  | object_updated payload => RoomSync.on_object_updated payload mirror
  | object_created newObject => RoomSync.on_object_created newObject mirror
  | object_deleted _ | pong => mirror
  end.

Definition receive_all (evs : list (ServerToClientEvents num extra))
    (mirror : RoomSync.t num extra) : RoomSync.t num extra :=
  foldl receive mirror evs.

(** The server handling, in order, what a client has just emitted. *)
Fixpoint deliver (id : string) (evs : list (ClientToServerEvents num extra))
    (st : Relay.t num extra) : Relay.t num extra :=
  match evs with
  | [] => st
  | ev :: evs' => deliver id evs' (Relay.handle id (Relay.event ev) st).1
  end.

End Wire.
End Wire.

(** ** Drag gestures on the useRoomSync map

    A sequence of [handleDragMove] calls (object id, position, the time
    [Date.now()] returns in the call), with everything they emit. *)

Module Drags.
Import SocketEvents.
Section Drags.
Context {num extra : Type}.

Fixpoint moves (calls : list (string * ObjectPosition.t num * Z))
    (st : RoomSync.t num extra)
    : RoomSync.t num extra * list (ClientToServerEvents num extra) :=
  match calls with
  | [] => (st, [])
  | (id, position, now) :: calls' =>
      let '(st1, out1) := RoomSync.handleDragMove id position now st in
      let '(st2, out2) := moves calls' st1 in
      (st2, out1 ++ out2)
  end.

(** An [update_object] for the object [id]. *)
Definition is_update_of (id : string) (ev : ClientToServerEvents num extra)
    : bool :=
  match ev with
  | update_object payload =>
      bool_decide (UpdateObjectPayload.objectId payload = id)
  | _ => false
  end.

Definition updates_of (id : string)
    (out : list (ClientToServerEvents num extra)) : nat :=
  length (List.filter (is_update_of id) out).

(** The time recorded as the last emission for [id], as [emitUpdateObject]
    reads it. *)
Definition lastEmitTime (id : string) (st : RoomSync.t num extra) : Z :=
  default 0%Z (RoomSync.lastEmitTimeRef st !! id).

End Drags.
End Drags.

(** ** TacticsMapWithDrawing: what is drawn, dragged and erased

    The callbacks are re-created whenever [historyState.objects] changes, so
    the list they read is the current one of the hook. *)

Module MapDrawing.
Import SocketEvents.
Section MapDrawing.
Context {num extra : Type}.

(** [handleObjectDrag] *)
Definition handleObjectDrag (id : string) (x y : num)
    (h : CanvasHistory.t (RoomObject.t num extra))
    : CanvasHistory.t (RoomObject.t num extra) :=
  CanvasHistory.setObjectsWithoutHistory
    (RoomSync.moved id (ObjectPosition.mk num x y) (CanvasHistory.objects h)) h.

(** [handleObjectDragEnd] *)
Definition handleObjectDragEnd (socket isConnected : bool) (id : string)
    (x y : num) (h : CanvasHistory.t (RoomObject.t num extra))
    : CanvasHistory.t (RoomObject.t num extra)
      * list (ClientToServerEvents num extra) :=
  (CanvasHistory.pushState
     (RoomSync.moved id (ObjectPosition.mk num x y) (CanvasHistory.objects h))
     h,
   if socket && isConnected
   then [update_object
           (UpdateObjectPayload.mk num id (ObjectPosition.mk num x y))]
   else []).

(** A whole gesture: the drag moves through [path], then the drag end. *)
Definition gesture (socket isConnected : bool) (id : string)
    (path : list (num * num)) (x y : num)
    (h : CanvasHistory.t (RoomObject.t num extra))
    : CanvasHistory.t (RoomObject.t num extra)
      * list (ClientToServerEvents num extra) :=
  handleObjectDragEnd socket isConnected id x y
    (foldl (λ h xy, handleObjectDrag id xy.1 xy.2 h) h path).

End MapDrawing.
End MapDrawing.

(** ** types/squad.ts and the hook useSquadState *)

Module CharacterClass.
Inductive t :=
| warrior | mage | archer | cleric | barbarian | venomancer | assassin
| psychic | seeker | mystic | duskblade | stormbringer | technician.
End CharacterClass.

Module Character.
Record t := mk {
  id : string;
  nickname : string;
  characterClass : CharacterClass.t
}.
End Character.

Module Squad.
Record t {num : Type} := mk {
  id : string;
  name : option string;
  x : num;
  y : num;
  characters : list Character.t;
  color : string
}.
Arguments t : clear implicits.
End Squad.

Module Detachment.
Record t {num : Type} := mk {
  id : string;
  parentSquadId : string;
  characterId : string;
  x : num;
  y : num
}.
Arguments t : clear implicits.
End Detachment.

Module SquadState.
Section SquadState.
Context {num : Type}.

(** The two pieces of React state of the hook.  Every action changes them
    through an updater of the previous value. *)
Record t := mk {
  squads : list (Squad.t num);
  detachments : list (Detachment.t num)
}.

(** The hook at its first render. *)
Definition useSquadState : t := mk [] [].

Definition addSquad (squad : Squad.t num) (st : t) : t :=
  mk (squads st ++ [squad]) (detachments st).

Definition removeSquad (squadId : string) (st : t) : t :=
  mk (filter (λ s, Squad.id s ≠ squadId) (squads st))
     (filter (λ d, Detachment.parentSquadId d ≠ squadId) (detachments st)).

(** [createDetachment]; [newId] is what [generateDetachmentId()] returns
    when it is called. *)
Definition createDetachment (squadId characterId : string) (x y : num)
    (newId : string) (st : t) : t :=
  let alreadyDetached :=
    existsb (λ d, bool_decide (Detachment.parentSquadId d = squadId)
                  && bool_decide (Detachment.characterId d = characterId))
            (detachments st) in
  if alreadyDetached then st
  else mk (squads st)
          (detachments st
             ++ [Detachment.mk num newId squadId characterId x y]).

Definition returnToSquad (detachmentId : string) (st : t) : t :=
  mk (squads st)
     (filter (λ d, Detachment.id d ≠ detachmentId) (detachments st)).

Definition updateDetachmentPosition (detachmentId : string) (x y : num)
    (st : t) : t :=
  mk (squads st)
     ((λ d, if decide (Detachment.id d = detachmentId)
            then Detachment.mk num (Detachment.id d)
                   (Detachment.parentSquadId d) (Detachment.characterId d) x y
            else d) <$> detachments st).

Definition updateSquadPosition (squadId : string) (x y : num) (st : t) : t :=
  mk ((λ s, if decide (Squad.id s = squadId)
            then Squad.mk num (Squad.id s) (Squad.name s) x y
                   (Squad.characters s) (Squad.color s)
            else s) <$> squads st)
     (detachments st).

(** [getCharacterFromSquad]; [None] is [undefined]. *)
Definition getCharacterFromSquad (squadId characterId : string) (st : t)
    : option Character.t :=
  List.find (λ s, bool_decide (Squad.id s = squadId)) (squads st) ≫=
    λ squad, List.find (λ c, bool_decide (Character.id c = characterId))
               (Squad.characters squad).

Definition getSquadByDetachment (detachmentId : string) (st : t)
    : option (Squad.t num) :=
  match List.find (λ d, bool_decide (Detachment.id d = detachmentId))
          (detachments st) with
  | None => None
  | Some detachment =>
      List.find
        (λ s, bool_decide (Squad.id s = Detachment.parentSquadId detachment))
        (squads st)
  end.

Definition setState (newSquads : list (Squad.t num))
    (newDetachments : list (Detachment.t num)) (st : t) : t :=
  mk newSquads newDetachments.

(** The actions that edit the state piecewise ([setState] replaces it
    wholesale), and a sequence of calls. *)
Inductive Action :=
| AddSquad (squad : Squad.t num)
| RemoveSquad (squadId : string)
| CreateDetachment (squadId characterId : string) (x y : num) (newId : string)
| ReturnToSquad (detachmentId : string)
| UpdateDetachmentPosition (detachmentId : string) (x y : num)
| UpdateSquadPosition (squadId : string) (x y : num).

Definition act (st : t) (a : Action) : t :=
  match a with
  | AddSquad squad => addSquad squad st
  | RemoveSquad squadId => removeSquad squadId st
  | CreateDetachment squadId characterId x y newId =>
      createDetachment squadId characterId x y newId st
  | ReturnToSquad detachmentId => returnToSquad detachmentId st
  | UpdateDetachmentPosition detachmentId x y =>
      updateDetachmentPosition detachmentId x y st
  | UpdateSquadPosition squadId x y => updateSquadPosition squadId x y st
  end.

Definition acts (l : list Action) (st : t) : t := foldl act st l.

(** The character a detachment stands for. *)
Definition slot (d : Detachment.t num) : string * string :=
  (Detachment.parentSquadId d, Detachment.characterId d).

End SquadState.
Arguments t : clear implicits.
Arguments Action : clear implicits.
End SquadState.

(** * Concrete runs

    Objects with integer coordinates and no extra keys. *)

Module Runs.
Import SocketEvents.
Local Open Scope Z_scope.

Definition o1 : RoomObject.t Z unit := RoomObject.mk Z unit "o1" 10 10 "x" tt.
Definition o2 : RoomObject.t Z unit := RoomObject.mk Z unit "o2" 30 40 "catapult" tt.
Definition at_50_50 : ObjectPosition.t Z := ObjectPosition.mk Z 50 50.
Definition at_60_70 : ObjectPosition.t Z := ObjectPosition.mk Z 60 70.

(** Two clients join room "r", then A creates [o1]. *)
Definition two_joined : Relay.t Z unit :=
  Relay.run
    [("A", Relay.connection); ("B", Relay.connection);
     ("A", Relay.event (join_room "r")); ("B", Relay.event (join_room "r"));
     ("A", Relay.event (create_object o1))]
    Relay.init.

(** C arrives and B populates the room, C never joins. *)
Definition lurker_trace : list (string * Relay.Incoming Z unit) :=
  [("C", Relay.connection); ("B", Relay.connection);
   ("B", Relay.event (join_room "r"));
   ("B", Relay.event (create_object o1));
   ("C", Relay.event ping)].

(** A connected client that holds [o1] and has just emitted a move of it at
    time 1700000000000. *)
Definition dragging : RoomSync.t Z unit :=
  (RoomSync.handleDragMove "o1" at_50_50 1700000000000
     (RoomSync.on_room_state [o1]
        (RoomSync.on_connect "r" RoomSync.mounted).1)).1.

(** The same client before any move. *)
Definition idle : RoomSync.t Z unit :=
  RoomSync.on_room_state [o1] (RoomSync.on_connect "r" RoomSync.mounted).1.

End Runs.

(** More concrete data: a store with two objects in room "r", two open
    connections that have not joined, an offline client, and a squad. *)

Module MoreRuns.
Import SocketEvents.
Local Open Scope Z_scope.

Definition o3 : RoomObject.t Z unit := RoomObject.mk Z unit "o3" 5 6 "circle" tt.
Definition o2_again : RoomObject.t Z unit :=
  RoomObject.mk Z unit "o2" 0 0 "text" tt.

Definition store_r : RoomManager.t Z unit :=
  StoreModel.run "r" [StoreModel.create Runs.o1; StoreModel.create Runs.o2]
    RoomManager.new.

Definition lobby : Relay.t Z unit :=
  Relay.run [("A", Relay.connection); ("B", Relay.connection)] Relay.init.

Definition offline : RoomSync.t Z unit := RoomSync.on_disconnect Runs.idle.

Definition char1 : Character.t :=
  Character.mk "char-1" "Warrior1" CharacterClass.warrior.
Definition char2 : Character.t :=
  Character.mk "char-2" "Mage1" CharacterClass.mage.
Definition squad1 : Squad.t Z :=
  Squad.mk Z "squad-1" (Some "Test Squad") 100 100 [char1; char2] "#ff5500".

Definition one_squad : SquadState.t Z :=
  SquadState.addSquad squad1 SquadState.useSquadState.

End MoreRuns.

(** * Properties *)

(** A closed decidable proposition, settled by evaluating its decision. *)
Ltac by_computation := apply (bool_decide_unpack _); vm_compute; exact I.

(** ** The Map model *)

Section JSMapFacts.
Context {K V : Type} `{Countable K}.
Implicit Types (m : list (K * V)) (k : K) (v : V).

Lemma JSMap_get_lookup k m :
  JSMap.get k m = (list_to_map m : gmap K V) !! k.
Proof.
  induction m as [|[k' v'] m IH]; simpl; [by rewrite lookup_empty|].
  rewrite lookup_insert. by case_decide.
Qed.

Lemma JSMap_set_to_map k v m :
  (list_to_map (JSMap.set k v m) : gmap K V) = <[k := v]> (list_to_map m).
Proof.
  induction m as [|[k' v'] m IH]; simpl; [done|].
  case_decide as Hk; simpl.
  - subst k'. by rewrite insert_insert_eq.
  - rewrite IH. by apply insert_insert_ne.
Qed.

Lemma JSMap_set_keys k v m :
  (JSMap.set k v m).*1 = if decide (k ∈ m.*1) then m.*1 else m.*1 ++ [k].
Proof.
  induction m as [|[k' v'] m IH].
  - rewrite decide_False; [done | apply not_elem_of_nil].
  - cbn [JSMap.set]. rewrite !fmap_cons. cbn [fst].
    destruct (decide (k' = k)) as [->|Hne].
    + rewrite decide_True; [done | left].
    + rewrite fmap_cons, IH. cbn [fst].
      destruct (decide (k ∈ m.*1)) as [Hin|Hin].
      * rewrite decide_True; [done | by right].
      * rewrite decide_False; [done|].
        intros [?|?]%elem_of_cons; congruence.
Qed.

Lemma JSMap_set_wf k v m : JSMap.wf m → JSMap.wf (JSMap.set k v m).
Proof.
  unfold JSMap.wf. intros Hnd. rewrite JSMap_set_keys.
  case_decide as Hin; [done|].
  apply NoDup_app. split_and!; [done | | apply NoDup_singleton].
  intros k' Hk' ->%list_elem_of_singleton. done.
Qed.

Lemma JSMap_set_Forall (P : K * V → Prop) k v m :
  P (k, v) → Forall P m → Forall P (JSMap.set k v m).
Proof.
  intros Hkv. induction 1 as [|[k' v'] m Hx Hm IH]; simpl.
  - by constructor.
  - case_decide; by constructor.
Qed.

Lemma JSMap_delete_absent k m :
  JSMap.get k m = None → JSMap.delete k m = (false, m).
Proof.
  induction m as [|[k' v'] m IH]; simpl; [done|].
  case_decide; [done|]. intros Hget. by rewrite IH.
Qed.

Lemma JSMap_delete_found k m :
  (JSMap.delete k m).1 = bool_decide (is_Some (JSMap.get k m)).
Proof.
  induction m as [|[k' v'] m IH]; cbn [JSMap.delete JSMap.get].
  - rewrite bool_decide_eq_false_2; [done | by intros [? ?]].
  - case_decide.
    + by rewrite bool_decide_eq_true_2.
    + destruct (JSMap.delete k m) as [b r]. exact IH.
Qed.

Lemma JSMap_delete_sublist k m : (JSMap.delete k m).2 `sublist_of` m.
Proof.
  induction m as [|[k' v'] m IH]; simpl; [done|].
  case_decide; simpl.
  - by apply sublist_cons.
  - destruct (JSMap.delete k m) as [b r]. simpl in *. by apply sublist_skip.
Qed.

Lemma JSMap_delete_wf k m : JSMap.wf m → JSMap.wf (JSMap.delete k m).2.
Proof.
  unfold JSMap.wf. intros Hnd.
  eapply sublist_NoDup; [exact Hnd|].
  apply fmap_sublist, JSMap_delete_sublist.
Qed.

Lemma JSMap_delete_to_map k m :
  JSMap.wf m →
  (list_to_map (JSMap.delete k m).2 : gmap K V) = base.delete k (list_to_map m).
Proof.
  unfold JSMap.wf.
  induction m as [|[k' v'] m IH]; simpl; intros Hnd.
  - by rewrite delete_empty.
  - apply NoDup_cons in Hnd as [Hk' Hnd].
    case_decide as Hk; simpl.
    + subst k'. rewrite delete_insert_eq. symmetry. apply delete_id.
      by apply not_elem_of_list_to_map_1.
    + specialize (IH Hnd). destruct (JSMap.delete k m) as [b r]. simpl in *.
      rewrite IH. by rewrite delete_insert_ne.
Qed.

End JSMapFacts.

(** ** The room store *)

Section RoomManagerFacts.
Context {num extra : Type}.
Implicit Types (this : RoomManager.t num extra) (roomId objectId : string).
Implicit Types (object : RoomObject.t num extra) (op : StoreModel.Op num extra).

Lemma RoomState_eta (room : RoomManager.RoomState num extra) :
  RoomManager.mkRoomState (RoomManager.roomId room) (RoomManager.objects room)
  = room.
Proof. by destruct room. Qed.

Lemma store_unchanged this roomId room :
  RoomManager.rooms this !! roomId = Some room →
  RoomManager.mk
    (<[roomId := RoomManager.mkRoomState (RoomManager.roomId room)
                   (RoomManager.objects room)]> (RoomManager.rooms this))
  = this.
Proof.
  intros Hroom. rewrite RoomState_eta, insert_id by done. by destruct this.
Qed.

Lemma with_position_id object (position : ObjectPosition.t num) :
  RoomObject.id (RoomObject.with_position object position) = RoomObject.id object.
Proof. done. Qed.

(** The entries of a consistent room are its objects paired with their
    ids. *)
Lemma keyed_entries (m : list (string * RoomObject.t num extra)) :
  Forall (λ kv, kv.1 = RoomObject.id kv.2) m →
  (λ obj, (RoomObject.id obj, obj)) <$> JSMap.values m = m.
Proof.
  unfold JSMap.values. induction 1 as [|[k v] m Hk _ IH]; [done|].
  rewrite !fmap_cons, IH. cbn in Hk |- *. by rewrite Hk.
Qed.

Lemma keyed_ids (m : list (string * RoomObject.t num extra)) :
  Forall (λ kv, kv.1 = RoomObject.id kv.2) m →
  RoomObject.id <$> JSMap.values m = m.*1.
Proof.
  unfold JSMap.values. induction 1 as [|[k v] m Hk _ IH]; [done|].
  rewrite !fmap_cons, IH. cbn in Hk |- *. by rewrite Hk.
Qed.

Lemma keyed_get (m : list (string * RoomObject.t num extra)) objectId object :
  Forall (λ kv, kv.1 = RoomObject.id kv.2) m →
  JSMap.get objectId m = Some object → RoomObject.id object = objectId.
Proof.
  induction 1 as [|[k v] m Hk _ IH]; cbn [JSMap.get]; [done|].
  case_decide; [|done]. intros [= <-]. cbn in Hk. congruence.
Qed.

Lemma new_consistent roomId : StoreModel.consistent roomId (@RoomManager.new num extra).
Proof. unfold StoreModel.consistent. cbn. by rewrite lookup_empty. Qed.

Lemma new_contents roomId :
  StoreModel.contents roomId (@RoomManager.new num extra) = ∅.
Proof. unfold StoreModel.contents. cbn. by rewrite lookup_empty. Qed.

Lemma apply_consistent roomId this op :
  StoreModel.consistent roomId this →
  StoreModel.consistent roomId (StoreModel.apply roomId this op).
Proof.
  unfold StoreModel.consistent.
  destruct op as [object|objectId position|objectId]; cbn [StoreModel.apply].
  - unfold RoomManager.addObject, RoomManager.getOrCreateRoom.
    destruct (RoomManager.rooms this !! roomId) as [room|] eqn:Hroom;
      cbn [RoomManager.rooms]; rewrite lookup_insert_eq;
      cbn [RoomManager.objects].
    + intros [Hwf Hkeys]. split;
        [by apply JSMap_set_wf | by apply JSMap_set_Forall].
    + intros _. split; [apply NoDup_singleton | by repeat constructor].
  - unfold RoomManager.updateObjectPosition.
    destruct (RoomManager.rooms this !! roomId) as [room|] eqn:Hroom;
      [|by cbn [snd]; rewrite Hroom].
    destruct (JSMap.get objectId (RoomManager.objects room)) as [object|]
      eqn:Hget; cbn [snd]; [|by rewrite Hroom].
    cbn [RoomManager.rooms]. rewrite lookup_insert_eq.
    cbn [RoomManager.objects]. intros [Hwf Hkeys]. split.
    + by apply JSMap_set_wf.
    + apply JSMap_set_Forall; [|done]. cbn.
      symmetry. by eapply keyed_get.
  - unfold RoomManager.deleteObject.
    destruct (RoomManager.rooms this !! roomId) as [room|] eqn:Hroom;
      [|by cbn [snd]; rewrite Hroom].
    pose proof (JSMap_delete_sublist objectId (RoomManager.objects room)) as Hsub.
    pose proof (JSMap_delete_wf objectId (RoomManager.objects room)) as Hwf'.
    destruct (JSMap.delete objectId (RoomManager.objects room)) as [found objs].
    cbn [snd RoomManager.rooms] in *. rewrite lookup_insert_eq.
    cbn [RoomManager.objects]. intros [Hwf Hkeys]. split; [by apply Hwf'|].
    apply Forall_forall. intros kv Hkv.
    apply (proj1 (Forall_forall _ _) Hkeys). by eapply elem_of_sublist.
Qed.

Lemma apply_contents roomId this op :
  StoreModel.consistent roomId this →
  StoreModel.contents roomId (StoreModel.apply roomId this op)
  = StoreModel.reference_step (StoreModel.contents roomId this) op.
Proof.
  unfold StoreModel.consistent, StoreModel.contents.
  destruct op as [object|objectId position|objectId];
    cbn [StoreModel.apply StoreModel.reference_step].
  - unfold RoomManager.addObject, RoomManager.getOrCreateRoom.
    destruct (RoomManager.rooms this !! roomId) as [room|] eqn:Hroom;
      cbn [RoomManager.rooms]; rewrite lookup_insert_eq;
      cbn [RoomManager.objects]; intros _.
    + apply JSMap_set_to_map.
    + done.
  - unfold RoomManager.updateObjectPosition.
    destruct (RoomManager.rooms this !! roomId) as [room|] eqn:Hroom.
    + rewrite <- JSMap_get_lookup.
      destruct (JSMap.get objectId (RoomManager.objects room)) as [object|]
        eqn:Hget; cbn [snd]; [|by rewrite Hroom].
      cbn [RoomManager.rooms]. rewrite lookup_insert_eq.
      cbn [RoomManager.objects]. intros _. apply JSMap_set_to_map.
    + cbn [snd]. by rewrite Hroom, lookup_empty.
  - unfold RoomManager.deleteObject.
    destruct (RoomManager.rooms this !! roomId) as [room|] eqn:Hroom.
    + pose proof (JSMap_delete_to_map objectId (RoomManager.objects room)) as Hdel.
      destruct (JSMap.delete objectId (RoomManager.objects room)) as [found objs].
      cbn [snd RoomManager.rooms] in *. rewrite lookup_insert_eq.
      cbn [RoomManager.objects]. intros [Hwf _]. by apply Hdel.
    + cbn [snd]. by rewrite Hroom, delete_empty.
Qed.

Lemma run_refines roomId ops this :
  StoreModel.consistent roomId this →
  StoreModel.consistent roomId (StoreModel.run roomId ops this) ∧
  StoreModel.contents roomId (StoreModel.run roomId ops this)
  = foldl StoreModel.reference_step (StoreModel.contents roomId this) ops.
Proof.
  unfold StoreModel.run. revert this.
  induction ops as [|op ops IH]; intros this Hc; [done|].
  cbn [foldl]. rewrite <- apply_contents by done.
  apply IH. by apply apply_consistent.
Qed.

Lemma listed_contents roomId this :
  StoreModel.consistent roomId this →
  StoreModel.by_id (RoomManager.getRoomObjects roomId this)
  = StoreModel.contents roomId this ∧
  NoDup (RoomObject.id <$> RoomManager.getRoomObjects roomId this) ∧
  RoomManager.getRoomObjects roomId this
  ≡ₚ (map_to_list (StoreModel.contents roomId this)).*2.
Proof.
  unfold StoreModel.consistent, StoreModel.contents, StoreModel.by_id,
    RoomManager.getRoomObjects.
  destruct (RoomManager.rooms this !! roomId) as [room|].
  - intros [Hwf Hkeys]. split_and!.
    + by rewrite keyed_entries.
    + by rewrite keyed_ids.
    + unfold JSMap.values. by rewrite map_to_list_to_map.
  - intros _. split_and!; [done | constructor |].
    by rewrite map_to_list_empty.
Qed.

(** C2. Model-based equivalence of the room store: after any sequence of
    create / update / delete operations applied to one room of a fresh
    [RoomManager], the objects [getRoomObjects] lists are exactly those of
    the reference map obtained by folding the same operations over a finite
    map from id to object: read by id the list is that map, it lists no id
    twice, and it is a rearrangement of the map's values. *)
Theorem store_refines_reference_map roomId (ops : list (StoreModel.Op num extra)) :
  let listed :=
    RoomManager.getRoomObjects roomId
      (StoreModel.run roomId ops RoomManager.new) in
  StoreModel.by_id listed = StoreModel.reference ops ∧
  NoDup (RoomObject.id <$> listed) ∧
  listed ≡ₚ (map_to_list (StoreModel.reference ops)).*2.
Proof.
  destruct (run_refines roomId ops RoomManager.new (new_consistent roomId))
    as [Hc Hm].
  rewrite new_contents in Hm. fold (StoreModel.reference ops) in Hm.
  cbv zeta. rewrite <- Hm. by apply listed_contents.
Qed.

(** C3. [updateObjectPosition] and [deleteObject] called with a room or an
    object id that does not exist return [false] and leave the whole manager
    as it was; both are total functions, there is no exceptional outcome. *)
Theorem missing_entity_is_noop this roomId objectId (position : ObjectPosition.t num) :
  StoreModel.find roomId objectId this = None →
  RoomManager.updateObjectPosition roomId objectId position this = (false, this) ∧
  RoomManager.deleteObject roomId objectId this = (false, this).
Proof.
  unfold StoreModel.find, RoomManager.updateObjectPosition,
    RoomManager.deleteObject.
  destruct (RoomManager.rooms this !! roomId) as [room|] eqn:Hroom;
    cbn [mbind option_bind]; [|done].
  intros Hget. rewrite Hget, (JSMap_delete_absent _ _ Hget).
  by rewrite store_unchanged.
Qed.

End RoomManagerFacts.

(** ** The relay *)

Section RelayFacts.
Context {num extra : Type}.
Import SocketEvents.
Implicit Types (st : Relay.t num extra) (id receiver roomId : string).
Implicit Types (ev : ServerToClientEvents num extra).

Lemma gets_nil id st receiver ev : ¬ Relay.gets id st [] receiver ev.
Proof. intros (e & He & _). by apply elem_of_nil in He. Qed.

Lemma gets_broadcast id st roomId ev' receiver ev :
  Relay.gets id st [Relay.socket_to_emit roomId ev'] receiver ev ↔
  ev = ev' ∧ receiver ∈ Relay.members roomId st ∖ {[id]}.
Proof.
  unfold Relay.gets. split.
  - intros (e & ->%list_elem_of_singleton & Hd & Hr). cbn in Hd, Hr.
    by injection Hd as ->.
  - intros [-> Hr]. eexists. split; [by apply list_elem_of_singleton|].
    by split.
Qed.

Lemma gets_console id st line receiver ev :
  ¬ Relay.gets id st [Relay.console_warn line] receiver ev.
Proof. by intros (e & ->%list_elem_of_singleton & Hd & _). Qed.

(** C4. The relay never echoes a mutation.  While connection [id] handles
    its own [create_object], the connections sent anything are exactly the
    other members of its room, and what they are sent is the
    [object_created] with the payload; [id] itself is sent nothing.  While
    it handles [update_object], somebody is sent something if and only if
    the connection has a room and [updateObjectPosition] returned [true],
    and then it is the [object_updated] with the payload, to the members of
    the room other than [id]; after a [false] nobody is sent anything.  The
    handler issues the broadcast of the payload exactly when the update
    returned [true]. *)
Theorem relay_echo_suppression st id :
  (∀ payload receiver ev,
     let out := Relay.handle id (Relay.event (create_object payload)) st in
     (Relay.gets id out.1 out.2 receiver ev ↔
        ∃ roomId, Relay.room_of id st = Some roomId ∧
                  ev = object_created payload ∧
                  receiver ∈ Relay.members roomId st ∧ receiver ≠ id) ∧
     ¬ Relay.gets id out.1 out.2 id ev) ∧
  (∀ payload receiver ev,
     let out := Relay.handle id (Relay.event (update_object payload)) st in
     (Relay.gets id out.1 out.2 receiver ev ↔
        ∃ roomId, Relay.room_of id st = Some roomId ∧
                  (RoomManager.updateObjectPosition roomId
                     (UpdateObjectPayload.objectId payload)
                     (UpdateObjectPayload.position payload)
                     (Relay.roomManager st)).1 = true ∧
                  ev = object_updated payload ∧
                  receiver ∈ Relay.members roomId st ∧ receiver ≠ id) ∧
     ¬ Relay.gets id out.1 out.2 id ev) ∧
  (∀ payload,
     let out := Relay.handle id (Relay.event (update_object payload)) st in
     (∃ roomId', Relay.socket_to_emit roomId' (object_updated payload) ∈ out.2) ↔
     ∃ roomId, Relay.room_of id st = Some roomId ∧
               (RoomManager.updateObjectPosition roomId
                  (UpdateObjectPayload.objectId payload)
                  (UpdateObjectPayload.position payload)
                  (Relay.roomManager st)).1 = true).
Proof.
  assert (Hmem : ∀ roomId receiver,
    receiver ∈ Relay.members roomId st ∖ {[id]} ↔
    receiver ∈ Relay.members roomId st ∧ receiver ≠ id) by set_solver.
  split_and!; [intros payload receiver ev | intros payload receiver ev
              | intros payload]; cbn zeta;
    unfold Relay.room_of; cbn [Relay.handle];
    destruct (Relay.sockets st !! id) as [socket|]; cbn [mbind option_bind].
  - unfold Relay.on_create_object.
    destruct (Relay.truthy (Relay.data_roomId socket)) as [roomId|];
      cbn [fst snd].
    + rewrite !gets_broadcast. unfold Relay.members at 1 3.
      cbn [Relay.sockets]. fold (Relay.members roomId st).
      rewrite !Hmem. split; [|by intros (_ & _ & ?)].
      split; [intros [-> ?]; by exists roomId|].
      by intros (roomId' & [= <-] & ?).
    + split; [|apply gets_console].
      split; [by intros ?%gets_console | by intros (? & ? & _)].
  - split; [|apply gets_nil].
    split; [by intros ?%gets_nil | by intros (? & ? & _)].
  - unfold Relay.on_update_object.
    destruct (Relay.truthy (Relay.data_roomId socket)) as [roomId|].
    + destruct (RoomManager.updateObjectPosition roomId _ _ _)
        as [[] manager'] eqn:Hupd; cbn [fst snd].
      * rewrite !gets_broadcast. unfold Relay.members at 1 3.
        cbn [Relay.sockets]. fold (Relay.members roomId st).
        rewrite !Hmem. split; [|by intros (_ & _ & ?)].
        split.
        -- intros [-> ?]. exists roomId. by rewrite Hupd.
        -- by intros (roomId' & [= <-] & _ & ?).
      * split; [|apply gets_nil].
        split; [by intros ?%gets_nil|].
        intros (roomId' & [= <-] & Hup & _). by rewrite Hupd in Hup.
    + cbn [fst snd]. split; [|apply gets_console].
      split; [by intros ?%gets_console | by intros (? & ? & _)].
  - split; [|apply gets_nil].
    split; [by intros ?%gets_nil | by intros (? & ? & _)].
  - unfold Relay.on_update_object.
    destruct (Relay.truthy (Relay.data_roomId socket)) as [roomId|].
    + destruct (RoomManager.updateObjectPosition roomId _ _ _)
        as [[] manager'] eqn:Hupd; cbn [fst snd].
      * split; [intros _; exists roomId; by rewrite Hupd|].
        intros _. exists roomId. by apply list_elem_of_singleton.
      * split; [by intros [? ?%elem_of_nil]|].
        intros (roomId' & [= <-] & Hup). by rewrite Hupd in Hup.
    + cbn [fst snd].
      split; [by intros [? ?%list_elem_of_singleton] | by intros (? & ? & _)].
  - cbn [fst snd].
    split; [by intros [? ?%elem_of_nil] | by intros (? & ? & _)].
Qed.

End RelayFacts.

Section RelayTraces.
Context {num extra : Type}.
Import SocketEvents.
Implicit Types (st : Relay.t num extra) (id : string).
Implicit Types (inc : Relay.Incoming num extra).

Lemma init_unjoined id : Relay.unjoined id (@Relay.init num extra).
Proof. unfold Relay.unjoined. cbn. by rewrite lookup_empty. Qed.

Lemma handle_unjoined id id' inc st :
  Relay.is_join id (id', inc) = false →
  Relay.unjoined id st → Relay.unjoined id (Relay.handle id' inc st).1.
Proof.
  unfold Relay.unjoined. intros Hjoin Hst.
  destruct inc as [|ev|]; cbn [Relay.handle].
  - cbn. rewrite lookup_insert. by case_decide.
  - destruct (Relay.sockets st !! id') as [socket'|] eqn:Hsock'; [|done].
    destruct ev as [roomId|payload|payload|objectId|]; try done.
    + cbn in Hjoin. apply bool_decide_eq_false in Hjoin.
      unfold Relay.on_join_room.
      destruct (RoomManager.getOrCreateRoom roomId _) as [room manager'].
      cbn. by rewrite lookup_insert_ne.
    + unfold Relay.on_update_object.
      destruct (Relay.truthy _); [|done].
      by destruct (RoomManager.updateObjectPosition _ _ _ _).
    + unfold Relay.on_create_object. by destruct (Relay.truthy _).
  - destruct (Relay.sockets st !! id') as [socket'|] eqn:Hsock'; [|done].
    cbn. rewrite lookup_delete. by case_decide.
Qed.

Lemma run_unjoined id trace st :
  Relay.never_joined id trace = true →
  Relay.unjoined id st → Relay.unjoined id (Relay.run trace st).
Proof.
  revert st. induction trace as [|[id' inc] trace IH]; intros st; [done|].
  cbn [Relay.never_joined forallb Relay.run].
  intros [Hhd Htl]%andb_true_iff Hst.
  apply IH; [exact Htl|]. apply handle_unjoined; [|done].
  by apply negb_true_iff.
Qed.

(** C9. A connection that has sent no [join_room] cannot mutate a room.
    After any run of the server in which [id] never joined, an
    [update_object] or [create_object] from [id] leaves the whole server
    state, the store included, as it was; every effect of the handler is a
    console line, so nobody (the sender included) is sent any event; and
    when the connection is open the handler writes exactly one warning. *)
Theorem unjoined_mutation_is_dropped
    (trace : list (string * Relay.Incoming num extra)) id
    (ev : ClientToServerEvents num extra) :
  Relay.never_joined id trace = true →
  Relay.is_mutation ev = true →
  let st := Relay.run trace Relay.init in
  let out := Relay.handle id (Relay.event ev) st in
  out.1 = st ∧
  Forall (λ e, Relay.is_console e = true) out.2 ∧
  (∀ receiver ev', ¬ Relay.gets id out.1 out.2 receiver ev') ∧
  (is_Some (Relay.sockets st !! id) → ∃ line, out.2 = [Relay.console_warn line]).
Proof.
  intros Hnever Hmut st out.
  pose proof (run_unjoined id trace _ Hnever (init_unjoined id)) as Hun.
  fold st in Hun. unfold Relay.unjoined in Hun. subst out.
  cbn [Relay.handle].
  destruct (Relay.sockets st !! id) as [socket|].
  - unfold Relay.on_update_object, Relay.on_create_object.
    destruct ev as [?|payload|payload|?|]; try done;
      rewrite Hun; cbn [Relay.truthy fst snd];
      (split_and!;
        [done
        |by repeat constructor
        |intros receiver ev'; apply gets_console
        |intros _; by eexists]).
  - cbn [fst snd]. split_and!; [done | constructor | |by intros [? ?]].
    intros receiver ev'. apply gets_nil.
Qed.

End RelayTraces.

(** ** The client's mirror of the room *)

Section RoomSyncFacts.
Context {num extra : Type}.
Import SocketEvents.
Implicit Types (st : RoomSync.t num extra) (objectId id : string).
Implicit Types (position : ObjectPosition.t num).

Lemma moved_absent objectId position (prev : list (RoomObject.t num extra)) :
  objectId ∉ (RoomObject.id <$> prev) →
  RoomSync.moved objectId position prev = prev.
Proof.
  unfold RoomSync.moved. induction prev as [|obj prev IH]; [done|].
  rewrite !fmap_cons. intros Hnot. apply not_elem_of_cons in Hnot as [Hne Hnot].
  rewrite IH by done. by rewrite decide_False by congruence.
Qed.

Lemma RoomSync_eta st :
  RoomSync.mk (RoomSync.socketRef st) (RoomSync.objects st)
    (RoomSync.isConnected st) (RoomSync.lastEmitTimeRef st) = st.
Proof. by destruct st. Qed.

(** C10. An [object_updated] event, or a call of [updateObjectLocal], whose
    object id is the id of no object of the local list leaves the hook's
    state, the object list included, exactly as it was: nothing is appended
    and there is no failure outcome. *)
Theorem unknown_object_update_is_ignored st objectId position :
  objectId ∉ (RoomObject.id <$> RoomSync.objects st) →
  RoomSync.on_object_updated (UpdateObjectPayload.mk num objectId position) st
  = st ∧
  RoomSync.updateObjectLocal objectId position st = st.
Proof.
  intros Hnot.
  unfold RoomSync.on_object_updated, RoomSync.updateObjectLocal.
  cbn [UpdateObjectPayload.objectId UpdateObjectPayload.position].
  rewrite moved_absent by done. by rewrite RoomSync_eta.
Qed.

(** One throttled emission attempt of a connected client. *)
Lemma emitUpdateObject_connected st objectId position now :
  RoomSync.socketRef st = true → RoomSync.isConnected st = true →
  RoomSync.emitUpdateObject objectId position now st =
  if (RoomSync.THROTTLE_INTERVAL
        <=? now - default 0 (RoomSync.lastEmitTimeRef st !! objectId))%Z
  then
    (RoomSync.mk true (RoomSync.objects st) true
       (<[objectId := now]> (RoomSync.lastEmitTimeRef st)),
     [update_object (UpdateObjectPayload.mk num objectId position)])
  else (st, []).
Proof.
  intros Hs Hc. unfold RoomSync.emitUpdateObject. by rewrite Hs, Hc.
Qed.

(** C8, as the code has it.  For a connected client and an object whose
    last recorded emission (0 when none is recorded) lies at least 16 ms
    before the first of two drag moves: both moves update the local position
    at once; a move emits exactly when 16 ms or more have passed since the
    emission recorded for that object id, and the moves touch the record of
    no other id; two moves less than 16 ms apart emit once (the first
    position), two moves 16 ms or more apart emit both. *)
Theorem throttled_moves_after_quiet_window st id
    (p1 p2 : ObjectPosition.t num) (t1 t2 : Z) :
  RoomSync.socketRef st = true →
  RoomSync.isConnected st = true →
  (RoomSync.THROTTLE_INTERVAL
     ≤ t1 - default 0 (RoomSync.lastEmitTimeRef st !! id))%Z →
  let out := RoomSync.two_moves id p1 p2 t1 t2 st in
  RoomSync.objects (RoomSync.handleDragMove id p1 t1 st).1
    = RoomSync.moved id p1 (RoomSync.objects st) ∧
  RoomSync.objects out.1
    = RoomSync.moved id p2 (RoomSync.moved id p1 (RoomSync.objects st)) ∧
  (∀ position now,
     (RoomSync.handleDragMove id position now st).2 ≠ [] ↔
     (RoomSync.THROTTLE_INTERVAL
        ≤ now - default 0 (RoomSync.lastEmitTimeRef st !! id))%Z) ∧
  (∀ id', id' ≠ id →
     RoomSync.lastEmitTimeRef out.1 !! id' = RoomSync.lastEmitTimeRef st !! id') ∧
  ((t2 - t1 < RoomSync.THROTTLE_INTERVAL)%Z →
     out.2 = [update_object (UpdateObjectPayload.mk num id p1)]) ∧
  ((RoomSync.THROTTLE_INTERVAL ≤ t2 - t1)%Z →
     out.2 = [update_object (UpdateObjectPayload.mk num id p1);
              update_object (UpdateObjectPayload.mk num id p2)]).
Proof.
  intros Hs Hc Hquiet.
  assert (Hone : ∀ position now,
    RoomSync.handleDragMove id position now st =
    if (RoomSync.THROTTLE_INTERVAL
          <=? now - default 0 (RoomSync.lastEmitTimeRef st !! id))%Z
    then
      (RoomSync.mk true (RoomSync.moved id position (RoomSync.objects st)) true
         (<[id := now]> (RoomSync.lastEmitTimeRef st)),
       [update_object (UpdateObjectPayload.mk num id position)])
    else (RoomSync.updateObjectLocal id position st, [])).
  { intros position now. unfold RoomSync.handleDragMove.
    by rewrite emitUpdateObject_connected. }
  unfold RoomSync.two_moves. rewrite (Hone p1 t1).
  rewrite (proj2 (Z.leb_le _ _) Hquiet).
  unfold RoomSync.handleDragMove, RoomSync.updateObjectLocal.
  rewrite emitUpdateObject_connected by done.
  cbn [RoomSync.lastEmitTimeRef RoomSync.objects RoomSync.socketRef
       RoomSync.isConnected].
  rewrite lookup_insert_eq. cbn [default from_option]. change (Datatypes.id t1) with t1.
  split_and!.
  - done.
  - by destruct (_ <=? _)%Z.
  - intros position now. fold (RoomSync.updateObjectLocal id position st).
    fold (RoomSync.handleDragMove id position now st). rewrite Hone.
    destruct (Z.leb_spec RoomSync.THROTTLE_INTERVAL
                (now - default 0%Z (RoomSync.lastEmitTimeRef st !! id))).
    + done.
    + cbn [snd]. split; [by intros [] | intros ?; lia].
  - intros id' Hne.
    destruct (_ <=? _)%Z; cbn [fst RoomSync.lastEmitTimeRef];
      by rewrite ?lookup_insert_ne.
  - intros Hlt. by rewrite (proj2 (Z.leb_gt _ _) Hlt).
  - intros Hge. by rewrite (proj2 (Z.leb_le _ _) Hge).
Qed.

End RoomSyncFacts.

(** ** Undo / redo history *)

Section CanvasHistoryFacts.
Context {CanvasObject : Type}.
Implicit Types (h : CanvasHistory.t CanvasObject).
Implicit Types (s : list CanvasObject) (stack : list (list CanvasObject)).

(** [stack.slice(-(MAX_HISTORY_SIZE - 1))]: the last 19 entries. *)
Lemma slice_newest {A} (l : list A) :
  CanvasHistory.slice (- (CanvasHistory.MAX_HISTORY_SIZE - 1)) None l
  = drop (length l - 19) l.
Proof.
  unfold CanvasHistory.slice, CanvasHistory.relative_index,
    CanvasHistory.MAX_HISTORY_SIZE.
  change (- (20 - 1) <? 0)%Z with true. cbv iota.
  replace (Z.to_nat (Z.max (Z.of_nat (length l) + - (20 - 1)) 0))
    with (length l - 19) by lia.
  apply take_ge. rewrite length_drop. lia.
Qed.

(** [stack.slice(0, -1)]: all but the last entry. *)
Lemma slice_but_last {A} (l : list A) :
  CanvasHistory.slice 0 (Some (-1)%Z) l = take (length l - 1) l.
Proof.
  unfold CanvasHistory.slice, CanvasHistory.relative_index.
  change (0 <? 0)%Z with false. change (-1 <? 0)%Z with true. cbv iota.
  replace (Z.to_nat (Z.min 0 (Z.of_nat (length l)))) with 0 by lia.
  replace (Z.to_nat (Z.max (Z.of_nat (length l) + -1) 0))
    with (length l - 1) by lia.
  by rewrite Nat.sub_0_r.
Qed.

Lemma pushState_undoStack s h :
  CanvasHistory.undoStackRef (CanvasHistory.pushState s h)
  = drop (length (CanvasHistory.undoStackRef h) - 19)
         (CanvasHistory.undoStackRef h) ++ [CanvasHistory.objects h].
Proof.
  unfold CanvasHistory.pushState. cbn [CanvasHistory.undoStackRef].
  by rewrite slice_newest.
Qed.

Lemma last_is_Some {A} (l : list A) x :
  last l = Some x → length l ≠ 0.
Proof. by destruct l. Qed.

(** The two stacks never hold more than 20 snapshots between them. *)
Lemma act_bounded (a : CanvasHistory.Action CanvasObject) h :
  length (CanvasHistory.undoStackRef h)
    + length (CanvasHistory.redoStackRef h) ≤ 20 →
  length (CanvasHistory.undoStackRef (CanvasHistory.act a h))
    + length (CanvasHistory.redoStackRef (CanvasHistory.act a h)) ≤ 20.
Proof.
  intros Hle. destruct a as [s| | |s|]; cbn [CanvasHistory.act].
  - rewrite pushState_undoStack. cbn [CanvasHistory.pushState CanvasHistory.redoStackRef].
    rewrite length_app, length_drop. cbn [length]. lia.
  - unfold CanvasHistory.undo.
    destruct (last (CanvasHistory.undoStackRef h)) as [prev|] eqn:Hlast;
      [|done].
    apply last_is_Some in Hlast.
    cbn [snd CanvasHistory.undoStackRef CanvasHistory.redoStackRef].
    rewrite slice_but_last, length_take, length_app. cbn [length]. lia.
  - unfold CanvasHistory.redo.
    destruct (last (CanvasHistory.redoStackRef h)) as [next|] eqn:Hlast;
      [|done].
    apply last_is_Some in Hlast.
    cbn [snd CanvasHistory.undoStackRef CanvasHistory.redoStackRef].
    rewrite slice_but_last, length_take, length_app. cbn [length]. lia.
  - done.
  - cbn. lia.
Qed.

Lemma acts_bounded (l : list (CanvasHistory.Action CanvasObject)) h :
  length (CanvasHistory.undoStackRef h)
    + length (CanvasHistory.redoStackRef h) ≤ 20 →
  length (CanvasHistory.undoStackRef (CanvasHistory.acts l h))
    + length (CanvasHistory.redoStackRef (CanvasHistory.acts l h)) ≤ 20.
Proof.
  unfold CanvasHistory.acts. revert h.
  induction l as [|a l IH]; intros h Hle; [done|].
  cbn [foldl]. by apply IH, act_bounded.
Qed.

(** Committing [states] one after the other: with [hist] the states that
    have been current before, the Undo stack is always the newest 20 of the
    states that are no longer current. *)
Lemma commits_undoStack (states : list (list CanvasObject)) h
    (hist : list (list CanvasObject)) :
  CanvasHistory.undoStackRef h = drop (length hist - 20) hist →
  let past := removelast (hist ++ CanvasHistory.objects h :: states) in
  CanvasHistory.undoStackRef
    (CanvasHistory.acts (CanvasHistory.PushState <$> states) h)
  = drop (length past - 20) past.
Proof.
  unfold CanvasHistory.acts. revert h hist.
  induction states as [|s states IH]; intros h hist Hundo; cbn zeta.
  - rewrite removelast_last. exact Hundo.
  - rewrite fmap_cons. cbn [foldl CanvasHistory.act].
    specialize (IH (CanvasHistory.pushState s h)
                   (hist ++ [CanvasHistory.objects h])).
    cbn zeta in IH. rewrite <- app_assoc in IH. cbn [app] in IH.
    apply IH. rewrite pushState_undoStack, Hundo.
    rewrite length_drop, length_app, drop_drop. cbn [length].
    destruct (decide (length hist < 20)) as [Hlt|Hge].
    + replace (length hist - 20) with 0 by lia.
      replace (length hist - 0 - 19) with 0 by lia.
      replace (length hist + 1 - 20) with 0 by lia. done.
    + replace (length hist - 20 + (length hist - (length hist - 20) - 19))
        with (length hist + 1 - 20) by lia.
      rewrite drop_app_le by lia. done.
Qed.

(** C5. From any state of the history: after [pushState A] and
    [pushState B], [undo] returns [A] and makes it the current state; the
    following [redo] returns [B] and makes it current; and a [pushState C]
    right after an [undo] (from any state) leaves the Redo stack empty, so
    that a following [redo] returns [null]. *)
Theorem undo_redo_commit h (A B C : list CanvasObject) :
  let committed := CanvasHistory.pushState B (CanvasHistory.pushState A h) in
  let undone := CanvasHistory.undo committed in
  let redone := CanvasHistory.redo undone.2 in
  let recommitted := CanvasHistory.pushState C (CanvasHistory.undo h).2 in
  undone.1 = Some A ∧ CanvasHistory.objects undone.2 = A ∧
  redone.1 = Some B ∧ CanvasHistory.objects redone.2 = B ∧
  CanvasHistory.redoStackRef recommitted = [] ∧
  CanvasHistory.canRedo recommitted = false ∧
  CanvasHistory.redo recommitted = (None, recommitted).
Proof.
  cbn zeta. unfold CanvasHistory.undo at 1 2 3 4.
  rewrite !pushState_undoStack. rewrite !last_snoc.
  cbn [fst snd CanvasHistory.objects CanvasHistory.redoStackRef
       CanvasHistory.pushState app].
  unfold CanvasHistory.redo at 1 2.
  cbn [CanvasHistory.redoStackRef last fst snd CanvasHistory.objects].
  by split_and!.
Qed.

(** C6. The history is bounded.  After any sequence of actions on a fresh
    hook ([pushState], [undo], [redo], [setObjectsWithoutHistory],
    [clearHistory], in any order) neither stack holds more than 20
    snapshots; and 25 commits in a row leave exactly 20 undoable steps, the
    newest 20 of the 25 states that were replaced: the oldest 5 (the initial
    state and the first four commits) are gone. *)
Theorem history_is_bounded (initialObjects : list CanvasObject)
    (actions : list (CanvasHistory.Action CanvasObject))
    (states : list (list CanvasObject)) :
  length states = 25 →
  let h := CanvasHistory.acts actions
             (CanvasHistory.useCanvasHistory initialObjects) in
  let h25 := CanvasHistory.acts (CanvasHistory.PushState <$> states)
               (CanvasHistory.useCanvasHistory initialObjects) in
  length (CanvasHistory.undoStackRef h) ≤ 20 ∧
  length (CanvasHistory.redoStackRef h) ≤ 20 ∧
  CanvasHistory.undoCount h25 = 20 ∧
  CanvasHistory.undoStackRef h25 = drop 5 (initialObjects :: take 24 states).
Proof.
  intros Hlen. cbn zeta.
  pose proof (acts_bounded actions
                (CanvasHistory.useCanvasHistory initialObjects)) as Hb.
  cbn in Hb. specialize (Hb ltac:(lia)).
  pose proof (commits_undoStack states
                (CanvasHistory.useCanvasHistory initialObjects) []
                eq_refl) as Hu.
  cbn zeta in Hu. cbn [app CanvasHistory.objects
                       CanvasHistory.useCanvasHistory] in Hu.
  assert (Hpast : removelast (initialObjects :: states)
                  = initialObjects :: take 24 states).
  { destruct states as [|s0 states]; [done|].
    change (removelast (initialObjects :: s0 :: states))
      with (initialObjects :: removelast (s0 :: states)).
    f_equal. rewrite removelast_firstn_len.
    replace (Init.Nat.pred (length (s0 :: states))) with 24; [done|].
    cbn [length] in Hlen |- *. lia. }
  rewrite Hpast in Hu. cbn [length] in Hu.
  rewrite length_take, Hlen in Hu. change (S (24 `min` 25) - 20) with 5 in Hu.
  unfold CanvasHistory.undoCount. rewrite Hu.
  split_and!; [lia | lia | | done].
  rewrite length_drop. cbn [length]. rewrite length_take, Hlen. done.
Qed.

(** C7. [setObjectsWithoutHistory] installs the new object list and
    changes nothing else: both stacks, with their contents, and with them
    [canUndo], [canRedo] and the two counts, are as before.  Whatever the
    server sends (the [room_state] checkpoint, a peer's [object_created],
    [object_deleted] or [object_updated]) and the [externalObjects] of
    DrawingCanvas enter the hook through that call only, and leave both
    stacks as they were. *)
Theorem server_state_bypasses_history {num extra : Type}
    h (newObjects : list CanvasObject)
    (g : CanvasHistory.t (RoomObject.t num extra))
    (seen : list (RoomObject.t num extra))
    (ev : SocketEvents.ServerToClientEvents num extra)
    (externalObjects : option (list (RoomObject.t num extra))) :
  let h' := CanvasHistory.setObjectsWithoutHistory newObjects h in
  (CanvasHistory.objects h' = newObjects ∧
   CanvasHistory.undoStackRef h' = CanvasHistory.undoStackRef h ∧
   CanvasHistory.redoStackRef h' = CanvasHistory.redoStackRef h ∧
   CanvasHistory.canUndo h' = CanvasHistory.canUndo h ∧
   CanvasHistory.canRedo h' = CanvasHistory.canRedo h ∧
   CanvasHistory.undoCount h' = CanvasHistory.undoCount h ∧
   CanvasHistory.redoCount h' = CanvasHistory.redoCount h) ∧
  (∃ objs, Drawing.on_server_event seen ev g = g ∨
           Drawing.on_server_event seen ev g
           = CanvasHistory.setObjectsWithoutHistory objs g) ∧
  CanvasHistory.undoStackRef (Drawing.on_server_event seen ev g)
    = CanvasHistory.undoStackRef g ∧
  CanvasHistory.redoStackRef (Drawing.on_server_event seen ev g)
    = CanvasHistory.redoStackRef g ∧
  CanvasHistory.undoStackRef (Drawing.externalObjects_effect externalObjects g)
    = CanvasHistory.undoStackRef g ∧
  CanvasHistory.redoStackRef (Drawing.externalObjects_effect externalObjects g)
    = CanvasHistory.redoStackRef g.
Proof.
  cbn zeta. split_and!; try done.
  - destruct ev; cbn [Drawing.on_server_event];
      try (eexists; right; reflexivity).
    exists []. by left.
  - by destruct ev.
  - by destruct ev.
  - by destruct externalObjects.
  - by destruct externalObjects.
Qed.

End CanvasHistoryFacts.

(** * Concrete instances *)

Example listed_after_create_update_delete :
  RoomManager.getRoomObjects "r"
    (StoreModel.run "r"
       [StoreModel.create Runs.o1; StoreModel.create Runs.o2;
        StoreModel.update "o1" Runs.at_50_50; StoreModel.delete "o2";
        StoreModel.update "o2" Runs.at_60_70]
       RoomManager.new)
  = [RoomObject.mk Z unit "o1" 50%Z 50%Z "x" tt].
Proof. vm_compute. reflexivity. Qed.

Lemma missing_entity_is_noop_witness :
  let this := RoomManager.addObject "r" Runs.o1 RoomManager.new in
  StoreModel.find "r" "o2" this = None ∧
  StoreModel.find "nowhere" "o1" this = None ∧
  RoomManager.updateObjectPosition "r" "o2" Runs.at_50_50 this = (false, this) ∧
  RoomManager.deleteObject "r" "o2" this = (false, this) ∧
  RoomManager.updateObjectPosition "nowhere" "o1" Runs.at_50_50 this
    = (false, this) ∧
  RoomManager.deleteObject "nowhere" "o1" this = (false, this).
Proof.
  cbv zeta.
  destruct (missing_entity_is_noop
              (RoomManager.addObject "r" Runs.o1 RoomManager.new)
              "r" "o2" Runs.at_50_50 eq_refl) as [Hupdate Hdelete].
  destruct (missing_entity_is_noop
              (RoomManager.addObject "r" Runs.o1 RoomManager.new)
              "nowhere" "o1" Runs.at_50_50 eq_refl) as [Hupdate' Hdelete'].
  repeat split; first [assumption | reflexivity].
Defined.

(** [delete_object] has no listener: whatever the state, the event changes
    nothing and has no effect. *)
Lemma delete_object_unheard {num extra} (st : Relay.t num extra) id objectId :
  Relay.handle id (Relay.event (SocketEvents.delete_object objectId)) st
  = (st, []).
Proof. cbn. by destruct (Relay.sockets st !! id). Qed.

(** C1. What the relay does with a [delete_object]: A and B have joined
    room "r", which holds [o1]; A erases "o1", for which its client emits
    [delete_object].  [RoomManager.deleteObject] would find and remove the
    object, but the relay has no listener for the event: the state is
    unchanged, [o1] is still listed, and there is no effect at all, so B is
    sent no [object_deleted]; a client that joins afterwards is handed [o1]
    in its [room_state]. *)
Theorem delete_object_from_joined_socket_is_dropped :
  let st := Runs.two_joined in
  let out := Relay.handle "A" (Relay.event (SocketEvents.delete_object "o1")) st in
  let late := Relay.handle "C" (Relay.event (SocketEvents.join_room "r"))
                (Relay.handle "C" Relay.connection out.1).1 in
  @Drawing.emitDeleteObject Z unit true true "o1"
    = [SocketEvents.delete_object "o1"] ∧
  Relay.room_of "A" st = Some "r" ∧
  "B" ∈ Relay.members "r" st ∧
  RoomManager.getRoomObjects "r" (Relay.roomManager st) = [Runs.o1] ∧
  (RoomManager.deleteObject "r" "o1" (Relay.roomManager st)).1 = true ∧
  out = (st, []) ∧
  RoomManager.getRoomObjects "r" (Relay.roomManager out.1) = [Runs.o1] ∧
  ¬ Relay.gets "A" out.1 out.2 "B" (SocketEvents.object_deleted "o1") ∧
  Relay.socket_emit (SocketEvents.room_state [Runs.o1]) ∈ late.2.
Proof.
  cbv zeta. rewrite delete_object_unheard. cbn [fst snd].
  split_and!; try (vm_compute; reflexivity).
  - apply gets_nil.
  - apply list_elem_of_here.
Qed.

(** The peer of a joined creator is sent the object, the creator is not. *)
Example created_object_reaches_the_peer_only :
  let st := Relay.run
              [("A", Relay.connection); ("B", Relay.connection);
               ("A", Relay.event (SocketEvents.join_room "r"));
               ("B", Relay.event (SocketEvents.join_room "r"))]
              (@Relay.init Z unit) in
  let out := Relay.handle "A" (Relay.event (SocketEvents.create_object Runs.o1)) st in
  Relay.gets "A" out.1 out.2 "B" (SocketEvents.object_created Runs.o1) ∧
  ¬ Relay.gets "A" out.1 out.2 "A" (SocketEvents.object_created Runs.o1) ∧
  RoomManager.getRoomObjects "r" (Relay.roomManager out.1) = [Runs.o1].
Proof.
  cbv zeta. split_and!.
  - apply gets_broadcast. split; [done|]. vm_compute. reflexivity.
  - intros [_ [_ Hne]%elem_of_difference]%gets_broadcast.
    apply Hne. by apply elem_of_singleton.
  - vm_compute. reflexivity.
Qed.

Lemma unjoined_mutation_is_dropped_witness :
  let st := Relay.run Runs.lurker_trace Relay.init in
  let ev := SocketEvents.update_object
              (UpdateObjectPayload.mk Z "o1" Runs.at_50_50) in
  let out := Relay.handle "C" (Relay.event ev) st in
  Relay.never_joined "C" Runs.lurker_trace = true ∧
  RoomManager.getRoomObjects "r" (Relay.roomManager st) = [Runs.o1] ∧
  out.1 = st ∧
  Forall (λ e, Relay.is_console e = true) out.2 ∧
  (∀ receiver ev', ¬ Relay.gets "C" out.1 out.2 receiver ev') ∧
  (is_Some (Relay.sockets st !! "C") → ∃ line, out.2 = [Relay.console_warn line]).
Proof.
  cbv zeta. split; [reflexivity|]. split; [vm_compute; reflexivity|].
  apply (unjoined_mutation_is_dropped Runs.lurker_trace "C"
           (SocketEvents.update_object
              (UpdateObjectPayload.mk Z "o1" Runs.at_50_50)));
    reflexivity.
Defined.

Lemma unknown_object_update_is_ignored_witness :
  ("o2" ∉ (RoomObject.id <$> RoomSync.objects Runs.idle)) ∧
  RoomSync.on_object_updated
    (UpdateObjectPayload.mk Z "o2" Runs.at_50_50) Runs.idle = Runs.idle ∧
  RoomSync.updateObjectLocal "o2" Runs.at_50_50 Runs.idle = Runs.idle.
Proof.
  assert (Hnot : "o2" ∉ (RoomObject.id <$> RoomSync.objects Runs.idle)).
  { by_computation. }
  split; [exact Hnot|].
  apply (unknown_object_update_is_ignored Runs.idle "o2" Runs.at_50_50 Hnot).
Defined.

(** C8, as the claim states it, fails: a connected client that has emitted
    a move of "o1" at time T makes two more moves of it at T+5 and T+10,
    less than 16 ms apart, and nothing is emitted for either (not exactly
    one emission); when it makes the two moves at T+5 and T+21, 16 ms
    apart, only the second is emitted (not each of them). *)
Lemma two_quick_moves_may_emit_nothing :
  let st := Runs.dragging in
  let quick := RoomSync.two_moves "o1" Runs.at_50_50 Runs.at_60_70
                 1700000000005 1700000000010 st in
  let slow := RoomSync.two_moves "o1" Runs.at_50_50 Runs.at_60_70
                1700000000005 1700000000021 st in
  RoomSync.socketRef st = true ∧ RoomSync.isConnected st = true ∧
  RoomSync.lastEmitTimeRef st !! "o1" = Some 1700000000000%Z ∧
  (1700000000010 - 1700000000005 < RoomSync.THROTTLE_INTERVAL)%Z ∧
  quick.2 = [] ∧ length quick.2 ≠ 1 ∧
  (RoomSync.THROTTLE_INTERVAL ≤ 1700000000021 - 1700000000005)%Z ∧
  slow.2 = [SocketEvents.update_object
              (UpdateObjectPayload.mk Z "o1" Runs.at_60_70)] ∧
  length slow.2 ≠ 2.
Proof.
  cbv zeta. split_and!; try (vm_compute; reflexivity); try (vm_compute; congruence).
Qed.

Lemma throttled_moves_after_quiet_window_witness :
  let st := Runs.idle in
  let quick := RoomSync.two_moves "o1" Runs.at_50_50 Runs.at_60_70
                 1700000000005 1700000000010 st in
  let slow := RoomSync.two_moves "o1" Runs.at_50_50 Runs.at_60_70
                1700000000005 1700000000021 st in
  RoomSync.objects quick.1 = [RoomObject.mk Z unit "o1" 60%Z 70%Z "x" tt] ∧
  quick.2 = [SocketEvents.update_object
               (UpdateObjectPayload.mk Z "o1" Runs.at_50_50)] ∧
  slow.2 = [SocketEvents.update_object
              (UpdateObjectPayload.mk Z "o1" Runs.at_50_50);
            SocketEvents.update_object
              (UpdateObjectPayload.mk Z "o1" Runs.at_60_70)].
Proof.
  cbv zeta.
  assert (Hquiet : (RoomSync.THROTTLE_INTERVAL
                    ≤ 1700000000005
                      - default 0 (RoomSync.lastEmitTimeRef Runs.idle !! "o1"))%Z)
    by (vm_compute; discriminate).
  destruct (throttled_moves_after_quiet_window Runs.idle "o1"
              Runs.at_50_50 Runs.at_60_70 1700000000005 1700000000010
              eq_refl eq_refl Hquiet) as (_ & Hobjs & _ & _ & Hquick & _).
  destruct (throttled_moves_after_quiet_window Runs.idle "o1"
              Runs.at_50_50 Runs.at_60_70 1700000000005 1700000000021
              eq_refl eq_refl Hquiet) as (_ & _ & _ & _ & _ & Hslow).
  split_and!.
  - rewrite Hobjs. reflexivity.
  - apply Hquick. vm_compute. reflexivity.
  - apply Hslow. vm_compute. discriminate.
Defined.

Lemma history_is_bounded_witness :
  let states := (λ i : nat, [i]) <$> seq 1 25 in
  let h := CanvasHistory.acts
             [CanvasHistory.PushState [1]; CanvasHistory.PushState [1; 2];
              CanvasHistory.Undo; CanvasHistory.Undo; CanvasHistory.Redo;
              CanvasHistory.SetObjectsWithoutHistory [7];
              CanvasHistory.ClearHistory]
             (CanvasHistory.useCanvasHistory [0]) in
  let h25 := CanvasHistory.acts (CanvasHistory.PushState <$> states)
               (CanvasHistory.useCanvasHistory [0]) in
  length states = 25 ∧
  length (CanvasHistory.undoStackRef h) ≤ 20 ∧
  length (CanvasHistory.redoStackRef h) ≤ 20 ∧
  CanvasHistory.undoCount h25 = 20 ∧
  CanvasHistory.undoStackRef h25 = (λ i : nat, [i]) <$> seq 5 20.
Proof.
  cbv zeta.
  assert (Hlen : length ((λ i : nat, [i]) <$> seq 1 25) = 25) by reflexivity.
  split; [exact Hlen|].
  destruct (history_is_bounded [0]
              [CanvasHistory.PushState [1]; CanvasHistory.PushState [1; 2];
               CanvasHistory.Undo; CanvasHistory.Undo; CanvasHistory.Redo;
               CanvasHistory.SetObjectsWithoutHistory [7];
               CanvasHistory.ClearHistory]
              ((λ i : nat, [i]) <$> seq 1 25) Hlen)
    as (Hundo & Hredo & Hcount & Hstack).
  split_and!; [exact Hundo | exact Hredo | exact Hcount |].
  rewrite Hstack. reflexivity.
Defined.

(** * Further properties of the room store *)

Section JSMapMore.
Context {K V : Type} `{Countable K}.
Implicit Types (m : list (K * V)) (k : K) (v : V).

Lemma JSMap_get_set k k' v m :
  JSMap.get k' (JSMap.set k v m)
  = if decide (k = k') then Some v else JSMap.get k' m.
Proof.
  rewrite !JSMap_get_lookup, JSMap_set_to_map. apply lookup_insert.
Qed.

Lemma JSMap_get_delete k k' m :
  JSMap.wf m →
  JSMap.get k' (JSMap.delete k m).2
  = if decide (k = k') then None else JSMap.get k' m.
Proof.
  intros Hwf. rewrite !JSMap_get_lookup, JSMap_delete_to_map by done.
  apply lookup_delete.
Qed.

Lemma JSMap_get_None_keys k m : JSMap.get k m = None ↔ k ∉ m.*1.
Proof.
  rewrite JSMap_get_lookup. symmetry. apply not_elem_of_list_to_map.
Qed.

Lemma JSMap_set_fresh k v m : k ∉ m.*1 → JSMap.set k v m = m ++ [(k, v)].
Proof.
  induction m as [|[k' v'] m IH]; [done|].
  rewrite fmap_cons. cbn [fst JSMap.set].
  intros [Hne Hnot]%not_elem_of_cons.
  rewrite decide_False by congruence. by rewrite IH.
Qed.

End JSMapMore.

Section StoreMore.
Context {num extra : Type}.
Implicit Types (this : RoomManager.t num extra) (roomId objectId : string).
Implicit Types (object : RoomObject.t num extra).
Implicit Types (m : list (string * RoomObject.t num extra)).

Lemma moved_values objectId object (position : ObjectPosition.t num) m :
  JSMap.wf m →
  Forall (λ kv, kv.1 = RoomObject.id kv.2) m →
  JSMap.get objectId m = Some object →
  JSMap.values
    (JSMap.set objectId (RoomObject.with_position object position) m)
  = RoomSync.moved objectId position (JSMap.values m).
Proof.
  unfold JSMap.wf, JSMap.values, RoomSync.moved.
  induction m as [|[k v] m IH]; [done|].
  rewrite !fmap_cons. cbn [fst snd JSMap.get JSMap.set].
  intros [Hk Hnd]%NoDup_cons [Hkv Hkeys]%Forall_cons. cbn in Hkv.
  destruct (decide (k = objectId)) as [->|Hne].
  - intros [= ->]. rewrite fmap_cons. cbn [snd].
    rewrite decide_True by done. f_equal.
    symmetry. apply moved_absent.
    pose proof (keyed_ids m Hkeys) as Hids. unfold JSMap.values in Hids.
    by rewrite Hids.
  - intros Hget. rewrite fmap_cons. cbn [snd].
    rewrite decide_False by congruence. f_equal. by apply IH.
Qed.

Lemma replaced_values object m :
  JSMap.wf m →
  Forall (λ kv, kv.1 = RoomObject.id kv.2) m →
  RoomObject.id object ∈ m.*1 →
  JSMap.values (JSMap.set (RoomObject.id object) object m)
  = (λ obj, if decide (RoomObject.id obj = RoomObject.id object)
            then object else obj) <$> JSMap.values m.
Proof.
  unfold JSMap.wf, JSMap.values.
  induction m as [|[k v] m IH]; [by intros _ _ ?%elem_of_nil|].
  rewrite !fmap_cons. cbn [fst snd JSMap.set].
  intros [Hk Hnd]%NoDup_cons [Hkv Hkeys]%Forall_cons Hin. cbn in Hkv.
  destruct (decide (k = RoomObject.id object)) as [Heq|Hne].
  - rewrite fmap_cons. cbn [snd]. rewrite decide_True by congruence.
    f_equal. pose proof (keyed_ids m Hkeys) as Hids.
    unfold JSMap.values in Hids. rewrite <- Hids, Heq in Hk.
    clear -Hk. induction (m.*2) as [|o l IHl]; [done|].
    rewrite fmap_cons in Hk. apply not_elem_of_cons in Hk as [Ho Hl].
    rewrite fmap_cons, decide_False by congruence. f_equal. by apply IHl.
  - rewrite fmap_cons. cbn [snd]. rewrite decide_False by congruence.
    f_equal. apply IH; [done..|].
    apply elem_of_cons in Hin as [?|?]; [congruence | done].
Qed.

Lemma deleted_values objectId m :
  JSMap.wf m →
  Forall (λ kv, kv.1 = RoomObject.id kv.2) m →
  JSMap.values (JSMap.delete objectId m).2
  = filter (λ obj, RoomObject.id obj ≠ objectId) (JSMap.values m).
Proof.
  unfold JSMap.wf, JSMap.values.
  induction m as [|[k v] m IH]; [done|].
  rewrite !fmap_cons. cbn [fst snd JSMap.delete].
  intros [Hk Hnd]%NoDup_cons [Hkv Hkeys]%Forall_cons. cbn in Hkv.
  destruct (decide (k = objectId)) as [Heq|Hne].
  - cbn [snd]. rewrite filter_cons_False by (intros Hid; congruence).
    pose proof (keyed_ids m Hkeys) as Hids.
    unfold JSMap.values in Hids. rewrite <- Hids, Heq in Hk.
    clear -Hk. induction (m.*2) as [|o l IHl]; [done|].
    rewrite fmap_cons in Hk. apply not_elem_of_cons in Hk as [Ho Hl].
    rewrite filter_cons_True by congruence. f_equal. by apply IHl.
  - specialize (IH Hnd Hkeys).
    destruct (JSMap.delete objectId m) as [b r]. cbn [snd] in *.
    rewrite fmap_cons. cbn [snd].
    rewrite filter_cons_True by congruence. by f_equal.
Qed.

End StoreMore.

Section StoreExtras.
Context {num extra : Type}.
Implicit Types (this : RoomManager.t num extra) (roomId objectId : string).
Implicit Types (object : RoomObject.t num extra).

(** X1. [getOrCreateRoom] is idempotent and invisible to readers: a second
    call returns the same room and the same manager, the room exists
    afterwards, the room returned holds exactly what [getRoomObjects] listed
    before the call, and no room's listing has changed. *)
Theorem getOrCreateRoom_idempotent this roomId :
  let first := RoomManager.getOrCreateRoom roomId this in
  RoomManager.getOrCreateRoom roomId first.2 = first ∧
  RoomManager.hasRoom roomId first.2 = true ∧
  JSMap.values (RoomManager.objects first.1)
    = RoomManager.getRoomObjects roomId this ∧
  ∀ roomId', RoomManager.getRoomObjects roomId' first.2
             = RoomManager.getRoomObjects roomId' this.
Proof.
  cbv zeta. unfold RoomManager.getOrCreateRoom, RoomManager.hasRoom,
    RoomManager.getRoomObjects.
  destruct (RoomManager.rooms this !! roomId) as [room|] eqn:Hroom;
    cbn [fst snd RoomManager.rooms].
  - rewrite Hroom. split_and!; [done | | done | done].
    by apply bool_decide_eq_true_2.
  - rewrite lookup_insert_eq. split_and!; [done | | done |].
    + by apply bool_decide_eq_true_2.
    + intros roomId'. rewrite lookup_insert. case_decide; [|done].
      subst roomId'. by rewrite Hroom.
Qed.

Lemma addObject_rooms this roomId object :
  ∃ room,
    RoomManager.rooms (RoomManager.addObject roomId object this)
    = <[roomId := room]> (RoomManager.rooms this) ∧
    RoomManager.objects room
    = JSMap.set (RoomObject.id object) object
        (match RoomManager.rooms this !! roomId with
         | Some old => RoomManager.objects old
         | None => []
         end).
Proof.
  unfold RoomManager.addObject, RoomManager.getOrCreateRoom.
  destruct (RoomManager.rooms this !! roomId) as [old|];
    cbn [RoomManager.rooms]; eexists.
  - split; reflexivity.
  - rewrite insert_insert_eq. split; reflexivity.
Qed.

(** X2. What [addObject] stores can be read back, and nothing else moves:
    the room exists afterwards and holds the object under its id, every
    other id of the room reads as before, and every other room is the very
    same room. *)
Theorem addObject_then_find this roomId object :
  let after := RoomManager.addObject roomId object this in
  StoreModel.find roomId (RoomObject.id object) after = Some object ∧
  RoomManager.hasRoom roomId after = true ∧
  (∀ objectId, objectId ≠ RoomObject.id object →
     StoreModel.find roomId objectId after
     = StoreModel.find roomId objectId this) ∧
  (∀ roomId', roomId' ≠ roomId →
     RoomManager.rooms after !! roomId' = RoomManager.rooms this !! roomId').
Proof.
  cbv zeta. destruct (addObject_rooms this roomId object)
    as (room & Hrooms & Hobjs).
  unfold StoreModel.find, RoomManager.hasRoom. rewrite Hrooms.
  rewrite lookup_insert_eq. cbn [mbind option_bind]. rewrite Hobjs.
  split_and!.
  - rewrite JSMap_get_set. by rewrite decide_True.
  - by apply bool_decide_eq_true_2.
  - intros objectId Hne. rewrite JSMap_get_set.
    rewrite decide_False by congruence.
    by destruct (RoomManager.rooms this !! roomId).
  - intros roomId' Hne. by rewrite lookup_insert_ne.
Qed.

(** X3. Where [addObject] puts an object in the listing of a consistent
    room: an object with a new id goes to the end, an object whose id is
    already listed takes the place of the object it overwrites, and the
    listing keeps its length. *)
Theorem addObject_listing this roomId object :
  StoreModel.consistent roomId this →
  let before := RoomManager.getRoomObjects roomId this in
  RoomManager.getRoomObjects roomId
    (RoomManager.addObject roomId object this)
  = if decide (RoomObject.id object ∈ RoomObject.id <$> before)
    then (λ obj, if decide (RoomObject.id obj = RoomObject.id object)
                 then object else obj) <$> before
    else before ++ [object].
Proof.
  intros Hc. cbv zeta.
  destruct (addObject_rooms this roomId object) as (room & Hrooms & Hobjs).
  unfold StoreModel.consistent in Hc. unfold RoomManager.getRoomObjects.
  rewrite Hrooms, lookup_insert_eq, Hobjs.
  destruct (RoomManager.rooms this !! roomId) as [old|].
  - destruct Hc as [Hwf Hkeys]. rewrite (keyed_ids _ Hkeys).
    case_decide as Hin.
    + by apply replaced_values.
    + rewrite JSMap_set_fresh by done. unfold JSMap.values.
      by rewrite fmap_app.
  - rewrite decide_False by apply not_elem_of_nil. done.
Qed.


(** X5. [deleteObject] on an object that is there, in a consistent room,
    returns [true]; the object can no longer be found, the listing is the
    old one without it (the others in their old order), and a second
    [deleteObject] of the same id returns [false] and changes nothing. *)
Theorem deleteObject_found this roomId objectId object :
  StoreModel.consistent roomId this →
  StoreModel.find roomId objectId this = Some object →
  let out := RoomManager.deleteObject roomId objectId this in
  out.1 = true ∧
  StoreModel.find roomId objectId out.2 = None ∧
  RoomManager.getRoomObjects roomId out.2
    = filter (λ obj, RoomObject.id obj ≠ objectId)
        (RoomManager.getRoomObjects roomId this) ∧
  RoomManager.deleteObject roomId objectId out.2 = (false, out.2).
Proof.
  unfold StoreModel.consistent, StoreModel.find, RoomManager.deleteObject,
    RoomManager.getRoomObjects.
  destruct (RoomManager.rooms this !! roomId) as [room|] eqn:Hroom;
    cbn [mbind option_bind]; [|done].
  intros [Hwf Hkeys] Hget. cbv zeta.
  pose proof (JSMap_delete_found objectId (RoomManager.objects room)) as Hb.
  pose proof (JSMap_get_delete objectId objectId _ Hwf) as Hgone.
  pose proof (deleted_values objectId _ Hwf Hkeys) as Hvals.
  rewrite decide_True in Hgone by done.
  destruct (JSMap.delete objectId (RoomManager.objects room))
    as [found objs] eqn:Hdel.
  cbn [fst snd RoomManager.rooms] in *. rewrite lookup_insert_eq.
  cbn [mbind option_bind RoomManager.objects].
  rewrite (JSMap_delete_absent _ _ Hgone).
  split_and!.
  - rewrite Hb, Hget. by apply bool_decide_eq_true_2.
  - done.
  - done.
  - cbn [RoomManager.roomId]. by rewrite insert_insert_eq.
Qed.

(** X6. [deleteRoom] forgets the room with everything in it: the room no
    longer exists, lists nothing and holds no object, so updates and
    deletes in it return [false]; if the room is created again by
    [getOrCreateRoom] it is empty; every other room is the very same
    room. *)
Theorem deleteRoom_forgets this roomId :
  let after := RoomManager.deleteRoom roomId this in
  RoomManager.hasRoom roomId after = false ∧
  RoomManager.getRoomObjects roomId after = [] ∧
  (∀ objectId, StoreModel.find roomId objectId after = None) ∧
  (∀ objectId (position : ObjectPosition.t num),
     RoomManager.updateObjectPosition roomId objectId position after
     = (false, after) ∧
     RoomManager.deleteObject roomId objectId after = (false, after)) ∧
  RoomManager.objects (RoomManager.getOrCreateRoom roomId after).1 = [] ∧
  (∀ roomId', roomId' ≠ roomId →
     RoomManager.rooms after !! roomId' = RoomManager.rooms this !! roomId').
Proof.
  cbv zeta.
  unfold RoomManager.deleteRoom, RoomManager.hasRoom,
    RoomManager.getRoomObjects, StoreModel.find,
    RoomManager.updateObjectPosition, RoomManager.deleteObject,
    RoomManager.getOrCreateRoom.
  cbn [RoomManager.rooms]. rewrite !lookup_delete_eq.
  split_and!; try done.
  intros roomId' Hne. by rewrite lookup_delete_ne.
Qed.

Lemma updated_listing this roomId objectId (position : ObjectPosition.t num) :
  StoreModel.consistent roomId this →
  RoomManager.getRoomObjects roomId
    (RoomManager.updateObjectPosition roomId objectId position this).2
  = RoomSync.moved objectId position
      (RoomManager.getRoomObjects roomId this).
Proof.
  unfold StoreModel.consistent, RoomManager.updateObjectPosition,
    RoomManager.getRoomObjects.
  destruct (RoomManager.rooms this !! roomId) as [room|] eqn:Hroom;
    [|intros _; cbn [snd]; by rewrite Hroom].
  intros [Hwf Hkeys].
  destruct (JSMap.get objectId (RoomManager.objects room)) as [object|]
    eqn:Hget; cbn [snd].
  - cbn [RoomManager.rooms]. rewrite lookup_insert_eq.
    cbn [RoomManager.objects]. by apply moved_values.
  - rewrite Hroom. symmetry. apply moved_absent.
    rewrite (keyed_ids _ Hkeys). by apply JSMap_get_None_keys.
Qed.

Lemma added_listing_fresh this roomId object :
  RoomObject.id object
    ∉ (RoomObject.id <$> RoomManager.getRoomObjects roomId this) →
  StoreModel.consistent roomId this →
  RoomManager.getRoomObjects roomId
    (RoomManager.addObject roomId object this)
  = RoomManager.getRoomObjects roomId this ++ [object].
Proof.
  intros Hfresh Hc.
  destruct (addObject_rooms this roomId object) as (room & Hrooms & Hobjs).
  unfold StoreModel.consistent in Hc.
  unfold RoomManager.getRoomObjects in *.
  rewrite Hrooms, lookup_insert_eq, Hobjs.
  destruct (RoomManager.rooms this !! roomId) as [old|]; [|done].
  destruct Hc as [Hwf Hkeys]. rewrite (keyed_ids _ Hkeys) in Hfresh.
  rewrite JSMap_set_fresh by done. unfold JSMap.values. by rewrite fmap_app.
Qed.

(** X7. The server's listing after an update is what the client's
    reconciliation computes: in a consistent room, whether or not the
    object exists, [getRoomObjects] after [updateObjectPosition] is the old
    listing with [moved] applied to it, the very function [object_updated]
    and [updateObjectLocal] apply to the local list; and the call returns
    [true] exactly when the id is one of the listed ids. *)
Theorem update_listing_is_moved this roomId objectId
    (position : ObjectPosition.t num) :
  StoreModel.consistent roomId this →
  let out := RoomManager.updateObjectPosition roomId objectId position this in
  RoomManager.getRoomObjects roomId out.2
    = RoomSync.moved objectId position
        (RoomManager.getRoomObjects roomId this) ∧
  (out.1 = true ↔
   objectId ∈ RoomObject.id <$> RoomManager.getRoomObjects roomId this).
Proof.
  intros Hc. cbv zeta. split; [by apply updated_listing|].
  unfold StoreModel.consistent in Hc.
  unfold RoomManager.updateObjectPosition, RoomManager.getRoomObjects.
  destruct (RoomManager.rooms this !! roomId) as [room|];
    [|split; [done | by intros ?%elem_of_nil]].
  destruct Hc as [Hwf Hkeys]. rewrite (keyed_ids _ Hkeys).
  destruct (JSMap.get objectId (RoomManager.objects room)) as [object|]
    eqn:Hget; cbn [fst].
  - split; [intros _ | done].
    destruct (decide (objectId ∈ (RoomManager.objects room).*1))
      as [|Hnot]; [done|].
    apply JSMap_get_None_keys in Hnot. congruence.
  - split; [done|]. intros Hin.
    by apply JSMap_get_None_keys in Hget.
Qed.

End StoreExtras.

(** * Further properties of the relay *)

Section RelayExtras.
Context {num extra : Type}.
Import SocketEvents.
Implicit Types (st : Relay.t num extra) (id receiver roomId : string).
Implicit Types (socket : Relay.Socket) (inc : Relay.Incoming num extra).

Lemma elem_of_members roomId st id :
  id ∈ Relay.members roomId st ↔
  ∃ socket, Relay.sockets st !! id = Some socket ∧
            roomId ∈ Relay.joined socket.
Proof.
  unfold Relay.members. rewrite elem_of_dom. split.
  - intros [socket [Hs Hin]%map_lookup_filter_Some]. by exists socket.
  - intros (socket & Hs & Hin). exists socket.
    by apply map_lookup_filter_Some.
Qed.

Lemma inbox_emit id receiver st ev (effs : list (Relay.Effect num extra)) :
  Wire.inbox receiver id (st, Relay.socket_emit ev :: effs)
  = if decide (receiver = id) then ev :: Wire.inbox receiver id (st, effs)
    else Wire.inbox receiver id (st, effs).
Proof.
  unfold Wire.inbox. cbn [snd fst omap list_omap Relay.receivers
                          Relay.delivered].
  destruct (decide (receiver = id)) as [->|Hne].
  - rewrite decide_True by (by apply elem_of_singleton). done.
  - rewrite decide_False by (by intros ?%elem_of_singleton). done.
Qed.

Lemma inbox_broadcast id receiver st roomId ev
    (effs : list (Relay.Effect num extra)) :
  Wire.inbox receiver id (st, Relay.socket_to_emit roomId ev :: effs)
  = if decide (receiver ∈ Relay.members roomId st ∧ receiver ≠ id)
    then ev :: Wire.inbox receiver id (st, effs)
    else Wire.inbox receiver id (st, effs).
Proof.
  unfold Wire.inbox. cbn [snd fst omap list_omap Relay.receivers
                          Relay.delivered].
  destruct (decide (receiver ∈ Relay.members roomId st ∧ receiver ≠ id))
    as [[Hin Hne]|Hnot].
  - rewrite decide_True; [done|].
    apply elem_of_difference. split; [done|].
    by intros ?%elem_of_singleton.
  - rewrite decide_False; [done|].
    intros [Hin Hne]%elem_of_difference. apply Hnot. split; [done|].
    intros ->. apply Hne. by apply elem_of_singleton.
Qed.

Lemma inbox_console_log id receiver st line
    (effs : list (Relay.Effect num extra)) :
  Wire.inbox receiver id (st, Relay.console_log line :: effs)
  = Wire.inbox receiver id (st, effs).
Proof.
  unfold Wire.inbox. cbn [snd fst omap list_omap Relay.receivers
                          Relay.delivered].
  by rewrite decide_False by apply not_elem_of_empty.
Qed.

Lemma getOrCreateRoom_listing (this : RoomManager.t num extra) roomId roomId' :
  RoomManager.getRoomObjects roomId'
    (RoomManager.getOrCreateRoom roomId this).2
  = RoomManager.getRoomObjects roomId' this.
Proof.
  unfold RoomManager.getOrCreateRoom, RoomManager.getRoomObjects.
  destruct (RoomManager.rooms this !! roomId) as [room|] eqn:Hroom; [done|].
  cbn [snd RoomManager.rooms]. rewrite lookup_insert.
  case_decide; [|done]. subst roomId'. by rewrite Hroom.
Qed.

Lemma getOrCreateRoom_consistent (this : RoomManager.t num extra) roomId roomId' :
  StoreModel.consistent roomId' this →
  StoreModel.consistent roomId'
    (RoomManager.getOrCreateRoom roomId this).2.
Proof.
  unfold RoomManager.getOrCreateRoom, StoreModel.consistent.
  destruct (RoomManager.rooms this !! roomId) as [room|] eqn:Hroom; [done|].
  cbn [snd RoomManager.rooms]. rewrite lookup_insert.
  case_decide; [|done]. intros _. split; [apply NoDup_nil_2 | constructor].
Qed.

Lemma apply_other_room roomId roomId' (this : RoomManager.t num extra)
    (op : StoreModel.Op num extra) :
  roomId' ≠ roomId →
  RoomManager.rooms (StoreModel.apply roomId this op) !! roomId'
  = RoomManager.rooms this !! roomId'.
Proof.
  intros Hne. destruct op as [object|objectId position|objectId];
    cbn [StoreModel.apply].
  - destruct (addObject_rooms this roomId object) as (room & -> & _).
    by rewrite lookup_insert_ne.
  - unfold RoomManager.updateObjectPosition.
    destruct (RoomManager.rooms this !! roomId) as [room|]; [|done].
    destruct (JSMap.get objectId (RoomManager.objects room)); [|done].
    cbn [snd RoomManager.rooms]. by rewrite lookup_insert_ne.
  - unfold RoomManager.deleteObject.
    destruct (RoomManager.rooms this !! roomId) as [room|]; [|done].
    destruct (JSMap.delete objectId (RoomManager.objects room)).
    cbn [snd RoomManager.rooms]. by rewrite lookup_insert_ne.
Qed.

Lemma apply_keeps_consistent roomId roomId' (this : RoomManager.t num extra)
    (op : StoreModel.Op num extra) :
  StoreModel.consistent roomId' this →
  StoreModel.consistent roomId' (StoreModel.apply roomId this op).
Proof.
  destruct (decide (roomId' = roomId)) as [->|Hne].
  - apply apply_consistent.
  - unfold StoreModel.consistent. by rewrite apply_other_room.
Qed.

Lemma apply_other_listing roomId roomId' (this : RoomManager.t num extra)
    (op : StoreModel.Op num extra) :
  roomId' ≠ roomId →
  RoomManager.getRoomObjects roomId' (StoreModel.apply roomId this op)
  = RoomManager.getRoomObjects roomId' this.
Proof.
  intros Hne. unfold RoomManager.getRoomObjects.
  by rewrite apply_other_room.
Qed.

(** The store a handler run leaves: the old one, or one store operation on
    the room of the connection. *)
Lemma handle_store id inc st :
  Relay.roomManager (Relay.handle id inc st).1 = Relay.roomManager st ∨
  (∃ roomId, inc = Relay.event (join_room roomId) ∧
     Relay.roomManager (Relay.handle id inc st).1
     = (RoomManager.getOrCreateRoom roomId (Relay.roomManager st)).2) ∨
  (∃ ev roomId op, inc = Relay.event ev ∧ Relay.is_mutation ev = true ∧
     Relay.room_of id st = Some roomId ∧
     Relay.roomManager (Relay.handle id inc st).1
     = StoreModel.apply roomId (Relay.roomManager st) op).
Proof.
  destruct inc as [|ev|]; cbn [Relay.handle]; [by left | |].
  - unfold Relay.room_of.
    destruct (Relay.sockets st !! id) as [socket|]; [|by left].
    cbn [mbind option_bind].
    destruct ev as [roomId|payload|payload|objectId|]; try by left.
    + right. left. exists roomId. split; [done|].
      unfold Relay.on_join_room.
      by destruct (RoomManager.getOrCreateRoom roomId _).
    + unfold Relay.on_update_object.
      destruct (Relay.truthy (Relay.data_roomId socket)) as [roomId|];
        [|by left].
      right. right.
      exists (update_object payload), roomId,
        (StoreModel.update (UpdateObjectPayload.objectId payload)
                           (UpdateObjectPayload.position payload)).
      split_and!; try done. cbn [StoreModel.apply].
      by destruct (RoomManager.updateObjectPosition roomId _ _ _).
    + unfold Relay.on_create_object.
      destruct (Relay.truthy (Relay.data_roomId socket)) as [roomId|];
        [|by left].
      right. right.
      exists (create_object payload), roomId, (StoreModel.create payload).
      by split_and!.
  - destruct (Relay.sockets st !! id); by left.
Qed.

End RelayExtras.

Section RelayProperties.
Context {num extra : Type}.
Import SocketEvents.
Implicit Types (st : Relay.t num extra) (id receiver roomId : string).
Implicit Types (socket : Relay.Socket) (inc : Relay.Incoming num extra).
Implicit Types (mirror : RoomSync.t num extra).

(** X8. The join checkpoint.  When an open connection sends [join_room],
    it alone is sent an event, exactly one: the [room_state] with the
    objects the room lists; no room's listing changes; the connection is
    then a member of the room, and the room is the one its later mutations
    act on unless its id is the empty string.  A useRoomSync mirror that
    handles what was sent holds, whatever it held before, exactly the
    room's listing. *)
Theorem join_checkpoint st id socket roomId mirror :
  Relay.sockets st !! id = Some socket →
  let out := Relay.handle id (Relay.event (join_room roomId)) st in
  Wire.inbox id id out
    = [room_state (RoomManager.getRoomObjects roomId (Relay.roomManager st))] ∧
  (∀ other, other ≠ id → Wire.inbox other id out = []) ∧
  (∀ roomId', RoomManager.getRoomObjects roomId' (Relay.roomManager out.1)
              = RoomManager.getRoomObjects roomId' (Relay.roomManager st)) ∧
  id ∈ Relay.members roomId out.1 ∧
  Relay.room_of id out.1 = Relay.truthy (Some roomId) ∧
  RoomSync.objects (Wire.receive_all (Wire.inbox id id out) mirror)
    = RoomManager.getRoomObjects roomId (Relay.roomManager out.1).
Proof.
  intros Hsock. cbv zeta. cbn [Relay.handle]. rewrite Hsock.
  unfold Relay.on_join_room.
  pose proof (getOrCreateRoom_listing (Relay.roomManager st) roomId) as Hlist.
  destruct (RoomManager.getOrCreateRoom roomId (Relay.roomManager st))
    as [room manager'] eqn:Hget. cbn [snd] in Hlist.
  assert (Hmine : Wire.inbox id id
            (Relay.mk manager'
               (<[id := Relay.mkSocket (Some roomId)
                          ({[roomId]} ∪ Relay.joined socket)]>
                  (Relay.sockets st)),
             [Relay.socket_emit
                (room_state (RoomManager.getRoomObjects roomId manager'));
              Relay.console_log
                ("User " +:+ id +:+ " joined room " +:+ roomId)])
          = [room_state (RoomManager.getRoomObjects roomId manager')]).
  { rewrite inbox_emit, decide_True by done. by rewrite inbox_console_log. }
  split_and!.
  - by rewrite Hmine, Hlist.
  - intros other Hne. rewrite inbox_emit, decide_False by done.
    by rewrite inbox_console_log.
  - intros roomId'. cbn [fst Relay.roomManager]. apply Hlist.
  - cbn [fst]. apply elem_of_members. eexists. cbn [Relay.sockets].
    rewrite lookup_insert_eq. split; [done|]. cbn [Relay.joined].
    apply elem_of_union_l. by apply elem_of_singleton.
  - cbn [fst]. unfold Relay.room_of. cbn [Relay.sockets].
    by rewrite lookup_insert_eq.
  - by rewrite Hmine.
Qed.

(** X9. Rooms are isolated from each other at the relay.  Whatever arrives
    from whatever connection, if the listing of a room changes then what
    arrived is an [update_object] or a [create_object] and the room is the
    one the sending connection has joined last. *)
Theorem only_own_room_changes st id inc roomId :
  RoomManager.getRoomObjects roomId
    (Relay.roomManager (Relay.handle id inc st).1)
  ≠ RoomManager.getRoomObjects roomId (Relay.roomManager st) →
  ∃ ev, inc = Relay.event ev ∧ Relay.is_mutation ev = true ∧
        Relay.room_of id st = Some roomId.
Proof.
  intros Hchanged.
  destruct (handle_store id inc st)
    as [Hsame|[(roomId' & _ & Hjoin)|(ev & roomId' & op & -> & Hmut & Hroom & Hop)]].
  - by rewrite Hsame in Hchanged.
  - by rewrite Hjoin, getOrCreateRoom_listing in Hchanged.
  - exists ev. split_and!; [done..|].
    destruct (decide (roomId = roomId')) as [->|Hne]; [done|].
    by rewrite Hop, apply_other_listing in Hchanged.
Qed.

Lemma handle_join st id socket roomId :
  Relay.sockets st !! id = Some socket →
  ∃ manager',
    (Relay.handle id (Relay.event (join_room roomId)) st).1
    = Relay.mk manager'
        (<[id := Relay.mkSocket (Some roomId)
                   ({[roomId]} ∪ Relay.joined socket)]> (Relay.sockets st)).
Proof.
  intros Hsock. cbn [Relay.handle]. rewrite Hsock. unfold Relay.on_join_room.
  destruct (RoomManager.getOrCreateRoom roomId (Relay.roomManager st))
    as [room manager']. by exists manager'.
Qed.

(** X10. Joining a second room moves where a connection writes, not where
    it listens.  After [join_room] for [r1] and then for [r2] (not the empty
    string) the connection's mutations act on [r2], yet it is a member of
    both rooms, and a [create_object] from another connection whose room is
    [r1] is still sent to it. *)
Theorem rejoin_keeps_listening st id socket (r1 r2 : string) :
  Relay.sockets st !! id = Some socket →
  r2 ≠ "" →
  let st2 := Wire.deliver id [join_room r1; join_room r2] st in
  Relay.room_of id st2 = Some r2 ∧
  id ∈ Relay.members r1 st2 ∧ id ∈ Relay.members r2 st2 ∧
  ∀ peer object, peer ≠ id → Relay.room_of peer st2 = Some r1 →
    Wire.inbox id peer
      (Relay.handle peer (Relay.event (create_object object)) st2)
    = [object_created object].
Proof.
  intros Hsock Hr2. cbv zeta. cbn [Wire.deliver].
  destruct (handle_join st id socket r1 Hsock) as (manager1 & ->).
  destruct (handle_join
              (Relay.mk manager1
                 (<[id := Relay.mkSocket (Some r1)
                            ({[r1]} ∪ Relay.joined socket)]>
                    (Relay.sockets st)))
              id (Relay.mkSocket (Some r1) ({[r1]} ∪ Relay.joined socket)) r2)
    as (manager2 & ->); [cbn [Relay.sockets]; apply lookup_insert_eq|].
  cbn [Relay.sockets Relay.joined]. rewrite insert_insert_eq.
  set (socket2 := Relay.mkSocket (Some r2)
                    ({[r2]} ∪ ({[r1]} ∪ Relay.joined socket))).
  set (st2 := Relay.mk manager2 (<[id := socket2]> (Relay.sockets st))).
  assert (Hmember : ∀ r, r ∈ Relay.joined socket2 → id ∈ Relay.members r st2).
  { intros r Hr. apply elem_of_members. exists socket2.
    subst st2. cbn [Relay.sockets]. by rewrite lookup_insert_eq. }
  split_and!.
  - unfold Relay.room_of. subst st2. cbn [Relay.sockets].
    rewrite lookup_insert_eq. cbn. by rewrite decide_False.
  - apply Hmember. subst socket2. cbn. set_solver.
  - apply Hmember. subst socket2. cbn. set_solver.
  - intros peer object Hne Hpeer. unfold Relay.room_of in Hpeer.
    cbn [Relay.handle].
    destruct (Relay.sockets st2 !! peer) as [psocket|]; [|done].
    cbn [mbind option_bind] in Hpeer. unfold Relay.on_create_object.
    rewrite Hpeer. rewrite inbox_broadcast. rewrite decide_True; [done|].
    split; [|done].
    assert (Hin : id ∈ Relay.members r1 st2).
    { apply Hmember. subst socket2. cbn. set_solver. }
    apply elem_of_members in Hin as (s & Hs & Hr).
    apply elem_of_members. by exists s.
Qed.

(** X11. A [join_room] with the empty string as room id joins nothing the
    guard accepts: [if (!roomId)] takes the empty string for a missing room,
    so the connection still has no room, and each [update_object] or
    [create_object] it sends afterwards leaves the server as it is and only
    writes to the console. *)
Theorem empty_room_id_is_no_room st id socket
    (ev : ClientToServerEvents num extra) :
  Relay.sockets st !! id = Some socket →
  Relay.is_mutation ev = true →
  let st1 := (Relay.handle id (Relay.event (join_room "")) st).1 in
  let out := Relay.handle id (Relay.event ev) st1 in
  Relay.room_of id st1 = None ∧
  out.1 = st1 ∧
  Forall (λ e, Relay.is_console e = true) out.2 ∧
  ∀ receiver, Wire.inbox receiver id out = [].
Proof.
  intros Hsock Hmut. cbv zeta. cbn [Relay.handle]. rewrite Hsock.
  unfold Relay.on_join_room.
  destruct (RoomManager.getOrCreateRoom "" (Relay.roomManager st))
    as [room manager']. cbn [fst Relay.sockets].
  rewrite lookup_insert_eq. split.
  - unfold Relay.room_of. cbn [Relay.sockets].
    by rewrite lookup_insert_eq.
  - unfold Relay.on_update_object, Relay.on_create_object.
    destruct ev as [?|payload|payload|?|]; try done;
      cbn [Relay.data_roomId];
      change (Relay.truthy (Some "")) with (@None string); cbn [fst snd];
      (split_and!; [done | by repeat constructor |]);
      intros receiver; unfold Wire.inbox; cbn;
      by rewrite decide_False by apply not_elem_of_empty.
Qed.

Lemma handle_keeps_consistent id inc st :
  (∀ roomId, StoreModel.consistent roomId (Relay.roomManager st)) →
  ∀ roomId,
    StoreModel.consistent roomId (Relay.roomManager (Relay.handle id inc st).1).
Proof.
  intros Hall roomId.
  destruct (handle_store id inc st)
    as [->|[(roomId' & _ & ->)|(ev & roomId' & op & _ & _ & _ & ->)]].
  - apply Hall.
  - apply getOrCreateRoom_consistent, Hall.
  - apply apply_keeps_consistent, Hall.
Qed.

Lemma run_keeps_consistent (trace : list (string * Relay.Incoming num extra)) st :
  (∀ roomId, StoreModel.consistent roomId (Relay.roomManager st)) →
  ∀ roomId,
    StoreModel.consistent roomId (Relay.roomManager (Relay.run trace st)).
Proof.
  revert st. induction trace as [|[id inc] trace IH]; intros st Hall; [done|].
  cbn [Relay.run]. apply IH. by apply handle_keeps_consistent.
Qed.

(** X12. Whatever has arrived at the server since it started, from however
    many connections and rooms and in whatever order, every room's store is
    consistent (one entry per key, every object filed under its own id): no
    room ever lists two objects with the same id, and each listed object is
    the one [find] returns for its id. *)
Theorem reachable_rooms_list_distinct_ids
    (trace : list (string * Relay.Incoming num extra)) roomId :
  let store := Relay.roomManager (Relay.run trace Relay.init) in
  StoreModel.consistent roomId store ∧
  NoDup (RoomObject.id <$> RoomManager.getRoomObjects roomId store) ∧
  ∀ object, object ∈ RoomManager.getRoomObjects roomId store →
            StoreModel.find roomId (RoomObject.id object) store = Some object.
Proof.
  cbv zeta.
  assert (Hc : StoreModel.consistent roomId
                 (Relay.roomManager (Relay.run trace Relay.init))).
  { apply run_keeps_consistent. intros r. apply new_consistent. }
  split; [done|]. split; [by apply listed_contents|].
  intros object Hin. unfold StoreModel.consistent in Hc.
  unfold StoreModel.find. unfold RoomManager.getRoomObjects in Hin.
  destruct (RoomManager.rooms _ !! roomId) as [room|];
    [|by apply elem_of_nil in Hin].
  cbn [mbind option_bind]. destruct Hc as [Hwf Hkeys].
  rewrite JSMap_get_lookup. apply elem_of_list_to_map_1; [done|].
  rewrite <- (keyed_entries _ Hkeys). apply list_elem_of_fmap.
  by exists object.
Qed.

End RelayProperties.

(** * The mirrors follow the server *)

Section MirrorProperties.
Context {num extra : Type}.
Import SocketEvents.
Implicit Types (st : Relay.t num extra) (id sender peer roomId : string).
Implicit Types (mirror : RoomSync.t num extra).

Lemma room_of_Some id st roomId :
  Relay.room_of id st = Some roomId →
  ∃ socket, Relay.sockets st !! id = Some socket ∧
            Relay.truthy (Relay.data_roomId socket) = Some roomId.
Proof.
  unfold Relay.room_of. destruct (Relay.sockets st !! id) as [socket|];
    [|done]. intros Hroom. by exists socket.
Qed.

Lemma update_refused (this : RoomManager.t num extra) roomId objectId
    (position : ObjectPosition.t num) :
  (RoomManager.updateObjectPosition roomId objectId position this).1 = false →
  (RoomManager.updateObjectPosition roomId objectId position this).2 = this.
Proof.
  unfold RoomManager.updateObjectPosition.
  destruct (RoomManager.rooms this !! roomId) as [room|]; [|done].
  by destruct (JSMap.get objectId (RoomManager.objects room)).
Qed.

(** X13. A peer's mirror follows the server through updates.  In a
    consistent room, when a connection of the room sends [update_object]
    and another member of the room holds the room's listing as its local
    list, then after that member has handled what the relay sent it (the
    [object_updated], or nothing when the object is unknown) its local list
    is again the room's listing. *)
Theorem peer_mirror_tracks_update st sender peer roomId mirror
    (payload : UpdateObjectPayload.t num) :
  StoreModel.consistent roomId (Relay.roomManager st) →
  Relay.room_of sender st = Some roomId →
  peer ∈ Relay.members roomId st →
  peer ≠ sender →
  RoomSync.objects mirror
    = RoomManager.getRoomObjects roomId (Relay.roomManager st) →
  let out := Relay.handle sender (Relay.event (update_object payload)) st in
  RoomSync.objects (Wire.receive_all (Wire.inbox peer sender out) mirror)
    = RoomManager.getRoomObjects roomId (Relay.roomManager out.1).
Proof.
  intros Hc [socket [Hsock Hroom]]%room_of_Some Hpeer Hne Hmirror.
  cbv zeta. cbn [Relay.handle]. rewrite Hsock.
  unfold Relay.on_update_object. rewrite Hroom.
  pose proof (updated_listing (Relay.roomManager st) roomId
                (UpdateObjectPayload.objectId payload)
                (UpdateObjectPayload.position payload) Hc) as Hmoved.
  pose proof (update_refused (Relay.roomManager st) roomId
                (UpdateObjectPayload.objectId payload)
                (UpdateObjectPayload.position payload)) as Hrefused.
  destruct (RoomManager.updateObjectPosition roomId _ _ _)
    as [[] manager']; cbn [fst snd Relay.roomManager] in *.
  - rewrite inbox_broadcast, decide_True by done.
    cbn. by rewrite Hmoved, Hmirror.
  - rewrite Hrefused by done. done.
Qed.

(** X14. A peer's mirror follows the server through creations of new
    objects.  In a consistent room, when a connection of the room sends
    [create_object] for an object whose id the room does not list yet, a
    member that held the room's listing holds the new listing once it has
    handled the [object_created] it is sent: the object is last in both. *)
Theorem peer_mirror_tracks_create st sender peer roomId mirror
    (object : RoomObject.t num extra) :
  StoreModel.consistent roomId (Relay.roomManager st) →
  Relay.room_of sender st = Some roomId →
  peer ∈ Relay.members roomId st →
  peer ≠ sender →
  RoomSync.objects mirror
    = RoomManager.getRoomObjects roomId (Relay.roomManager st) →
  RoomObject.id object
    ∉ (RoomObject.id
         <$> RoomManager.getRoomObjects roomId (Relay.roomManager st)) →
  let out := Relay.handle sender (Relay.event (create_object object)) st in
  RoomSync.objects (Wire.receive_all (Wire.inbox peer sender out) mirror)
    = RoomManager.getRoomObjects roomId (Relay.roomManager out.1) ∧
  RoomManager.getRoomObjects roomId (Relay.roomManager out.1)
    = RoomManager.getRoomObjects roomId (Relay.roomManager st) ++ [object].
Proof.
  intros Hc [socket [Hsock Hroom]]%room_of_Some Hpeer Hne Hmirror Hfresh.
  cbv zeta. cbn [Relay.handle]. rewrite Hsock.
  unfold Relay.on_create_object. rewrite Hroom.
  cbn [fst snd Relay.roomManager].
  rewrite inbox_broadcast, decide_True by done.
  rewrite added_listing_fresh by done. cbn. by rewrite Hmirror.
Qed.

(** X15. The sender's optimistic edits agree with what the server ends up
    with.  A connected client whose local list is the listing of its
    (consistent) room ends a drag with [handleDragEnd], or creates an object
    with a new id with [createObject]: once the server has handled what the
    client emitted, the room's listing is the client's local list. *)
Theorem optimistic_edits_agree st id roomId mirror objectId
    (position : ObjectPosition.t num) (now : Z)
    (object : RoomObject.t num extra) :
  RoomSync.socketRef mirror = true →
  RoomSync.isConnected mirror = true →
  StoreModel.consistent roomId (Relay.roomManager st) →
  Relay.room_of id st = Some roomId →
  RoomSync.objects mirror
    = RoomManager.getRoomObjects roomId (Relay.roomManager st) →
  RoomObject.id object
    ∉ (RoomObject.id
         <$> RoomManager.getRoomObjects roomId (Relay.roomManager st)) →
  let dragged := RoomSync.handleDragEnd objectId position now mirror in
  let created := RoomSync.createObject object mirror in
  RoomSync.objects dragged.1
    = RoomManager.getRoomObjects roomId
        (Relay.roomManager (Wire.deliver id dragged.2 st)) ∧
  RoomSync.objects created.1
    = RoomManager.getRoomObjects roomId
        (Relay.roomManager (Wire.deliver id created.2 st)).
Proof.
  intros Hs Hconn Hc [socket [Hsock Hroom]]%room_of_Some Hmirror Hfresh.
  cbv zeta. split.
  - unfold RoomSync.handleDragEnd, RoomSync.emitUpdateObjectForce,
      RoomSync.updateObjectLocal.
    cbn [RoomSync.socketRef RoomSync.isConnected]. rewrite Hs, Hconn.
    cbn [negb orb fst snd RoomSync.objects Wire.deliver Relay.handle].
    rewrite Hsock. unfold Relay.on_update_object. rewrite Hroom.
    cbn [UpdateObjectPayload.objectId UpdateObjectPayload.position].
    pose proof (updated_listing (Relay.roomManager st) roomId objectId
                  position Hc) as Hmoved.
    destruct (RoomManager.updateObjectPosition roomId objectId position _)
      as [updated manager']. cbn [fst snd Relay.roomManager] in *.
    by rewrite Hmoved, Hmirror.
  - unfold RoomSync.createObject. rewrite Hs, Hconn.
    cbn [andb fst snd RoomSync.objects Wire.deliver Relay.handle].
    rewrite Hsock. unfold Relay.on_create_object. rewrite Hroom.
    cbn [fst Relay.roomManager].
    rewrite added_listing_fresh by done. by rewrite Hmirror.
Qed.

End MirrorProperties.

(** * Further properties of the client's mirror *)

Section RoomSyncExtras.
Context {num extra : Type}.
Import SocketEvents.
Implicit Types (st : RoomSync.t num extra) (objectId id : string).
Implicit Types (position : ObjectPosition.t num).

(** X16. A forced emission always goes out and restarts the throttle
    window.  For a connected client [emitUpdateObjectForce] emits the
    update whatever time was recorded before and records the time of the
    call for that object id only; a throttled emission for the same id less
    than 16 ms later is suppressed, one 16 ms later or more goes out. *)
Theorem forced_emission_restarts_window st id position position'
    (now now' : Z) :
  RoomSync.socketRef st = true →
  RoomSync.isConnected st = true →
  let forced := RoomSync.emitUpdateObjectForce id position now st in
  let next := RoomSync.emitUpdateObject id position' now' forced.1 in
  forced.2 = [update_object (UpdateObjectPayload.mk num id position)] ∧
  Drags.lastEmitTime id forced.1 = now ∧
  (∀ id', id' ≠ id →
     RoomSync.lastEmitTimeRef forced.1 !! id'
     = RoomSync.lastEmitTimeRef st !! id') ∧
  RoomSync.objects forced.1 = RoomSync.objects st ∧
  ((now' - now < RoomSync.THROTTLE_INTERVAL)%Z → next = (forced.1, [])) ∧
  ((RoomSync.THROTTLE_INTERVAL ≤ now' - now)%Z →
     next.2 = [update_object (UpdateObjectPayload.mk num id position')]).
Proof.
  intros Hs Hc. cbv zeta. unfold RoomSync.emitUpdateObjectForce.
  rewrite Hs, Hc. cbn [negb orb fst snd].
  rewrite emitUpdateObject_connected by done.
  unfold Drags.lastEmitTime. cbn [RoomSync.lastEmitTimeRef RoomSync.objects].
  rewrite lookup_insert_eq. cbn [default from_option].
  change (Datatypes.id now) with now.
  split_and!; try done.
  - intros id' Hne. by rewrite lookup_insert_ne.
  - intros Hlt. by rewrite (proj2 (Z.leb_gt _ _) Hlt).
  - intros Hge. by rewrite (proj2 (Z.leb_le _ _) Hge).
Qed.

(** X17. Offline edits stay local.  While the client has no socket or is
    not connected, a drag move, a drag end and a creation emit nothing and
    record no emission time, and each still changes the local list as it
    does when connected: the moved object takes the position, the created
    object is appended. *)
Theorem offline_edits_stay_local st id position (now : Z)
    (object : RoomObject.t num extra) :
  RoomSync.socketRef st && RoomSync.isConnected st = false →
  let move := RoomSync.handleDragMove id position now st in
  let stop := RoomSync.handleDragEnd id position now st in
  let made := RoomSync.createObject object st in
  move.2 = [] ∧ stop.2 = [] ∧ made.2 = [] ∧
  RoomSync.lastEmitTimeRef move.1 = RoomSync.lastEmitTimeRef st ∧
  RoomSync.lastEmitTimeRef stop.1 = RoomSync.lastEmitTimeRef st ∧
  RoomSync.lastEmitTimeRef made.1 = RoomSync.lastEmitTimeRef st ∧
  RoomSync.objects move.1 = RoomSync.moved id position (RoomSync.objects st) ∧
  RoomSync.objects stop.1 = RoomSync.moved id position (RoomSync.objects st) ∧
  RoomSync.objects made.1 = RoomSync.objects st ++ [object].
Proof.
  intros Hoff. cbv zeta.
  unfold RoomSync.handleDragMove, RoomSync.handleDragEnd,
    RoomSync.emitUpdateObject, RoomSync.emitUpdateObjectForce,
    RoomSync.createObject, RoomSync.updateObjectLocal.
  cbn [RoomSync.socketRef RoomSync.isConnected]. rewrite Hoff.
  assert (Hor : negb (RoomSync.socketRef st)
                || negb (RoomSync.isConnected st) = true).
  { by destruct (RoomSync.socketRef st), (RoomSync.isConnected st). }
  rewrite Hor. by split_and!.
Qed.

Lemma updates_of_app id (a b : list (ClientToServerEvents num extra)) :
  Drags.updates_of id (a ++ b)
  = Drags.updates_of id a + Drags.updates_of id b.
Proof.
  unfold Drags.updates_of. by rewrite List.filter_app, length_app.
Qed.

Lemma move_pays_for_its_update id' position (now : Z) st id :
  let out := RoomSync.handleDragMove id' position now st in
  (RoomSync.THROTTLE_INTERVAL * Z.of_nat (Drags.updates_of id out.2)
   ≤ Drags.lastEmitTime id out.1 - Drags.lastEmitTime id st)%Z.
Proof.
  cbv zeta. unfold RoomSync.handleDragMove, RoomSync.emitUpdateObject,
    RoomSync.updateObjectLocal, Drags.lastEmitTime.
  cbn [RoomSync.socketRef RoomSync.isConnected RoomSync.lastEmitTimeRef].
  destruct (negb (RoomSync.socketRef st) || negb (RoomSync.isConnected st));
    [cbn; lia|].
  destruct (Z.leb_spec RoomSync.THROTTLE_INTERVAL
              (now - default 0%Z (RoomSync.lastEmitTimeRef st !! id')))
    as [Hge|Hlt]; [|cbn; lia].
  cbn [fst snd RoomSync.lastEmitTimeRef]. unfold Drags.updates_of.
  cbn [List.filter Drags.is_update_of UpdateObjectPayload.objectId].
  rewrite lookup_insert. destruct (decide (id' = id)) as [->|Hne].
  - rewrite bool_decide_eq_true_2 by done. cbn [length default from_option].
    change (Datatypes.id now) with now. lia.
  - rewrite bool_decide_eq_false_2 by done. cbn [length]. lia.
Qed.

(** X18. The throttle caps the rate of updates per object.  Over any
    sequence of drag moves, of whatever objects and at whatever times, each
    [update_object] emitted for an object id advances the time recorded for
    that id by 16 ms or more: [k] updates of one object need the recorded
    time to advance by at least [16 * k] ms. *)
Theorem throttle_caps_update_rate
    (calls : list (string * ObjectPosition.t num * Z)) st id :
  let out := Drags.moves calls st in
  (RoomSync.THROTTLE_INTERVAL * Z.of_nat (Drags.updates_of id out.2)
   ≤ Drags.lastEmitTime id out.1 - Drags.lastEmitTime id st)%Z.
Proof.
  cbv zeta. revert st.
  induction calls as [|[[id' position] now] calls IH]; intros st.
  - cbn. lia.
  - cbn [Drags.moves].
    pose proof (move_pays_for_its_update id' position now st id) as Hstep.
    cbv zeta in Hstep.
    destruct (RoomSync.handleDragMove id' position now st) as [st1 out1].
    specialize (IH st1).
    destruct (Drags.moves calls st1) as [st2 out2].
    cbn [fst snd] in *. rewrite updates_of_app. lia.
Qed.

Lemma moved_twice id position position' (l : list (RoomObject.t num extra)) :
  RoomSync.moved id position' (RoomSync.moved id position l)
  = RoomSync.moved id position' l.
Proof.
  unfold RoomSync.moved. rewrite <- list_fmap_compose.
  apply list_fmap_ext. intros _ obj _. cbn.
  destruct (decide (RoomObject.id obj = id)) as [Heq|Hne].
  - rewrite decide_True by done. done.
  - by rewrite decide_False by done.
Qed.

(** X19. How position updates of the local list compose.  [moved] (the
    list [object_updated] and [updateObjectLocal] install) never adds,
    removes, reorders or renames an object; every object with the id has
    the new position afterwards; a second update of the same id overrides
    the first (the last write wins); and updates of different ids can be
    applied in either order. *)
Theorem moved_composes id position position'
    (l : list (RoomObject.t num extra)) :
  RoomObject.id <$> RoomSync.moved id position l = RoomObject.id <$> l ∧
  (∀ obj, obj ∈ RoomSync.moved id position l → RoomObject.id obj = id →
     RoomObject.x obj = ObjectPosition.x position ∧
     RoomObject.y obj = ObjectPosition.y position) ∧
  RoomSync.moved id position' (RoomSync.moved id position l)
    = RoomSync.moved id position' l ∧
  (∀ id', id' ≠ id →
     RoomSync.moved id' position' (RoomSync.moved id position l)
     = RoomSync.moved id position (RoomSync.moved id' position' l)).
Proof.
  split_and!.
  - unfold RoomSync.moved. rewrite <- list_fmap_compose.
    apply list_fmap_ext. intros _ obj _. cbn. by case_decide.
  - intros obj (obj0 & -> & Hin)%list_elem_of_fmap.
    destruct (decide (RoomObject.id obj0 = id)) as [Heq|Hne]; [done|].
    intros Hid. done.
  - apply moved_twice.
  - intros id' Hne. unfold RoomSync.moved. rewrite <- !list_fmap_compose.
    apply list_fmap_ext. intros _ obj _. cbn.
    destruct (decide (RoomObject.id obj = id)) as [Heq|Hne1];
      destruct (decide (RoomObject.id obj = id')) as [Heq'|Hne'];
      cbn; rewrite ?decide_True by done; rewrite ?decide_False by done;
      try done; try congruence.
    by rewrite decide_True by done.
Qed.

End RoomSyncExtras.

(** * Further properties of the history *)

Section HistoryExtras.
Context {CanvasObject : Type}.
Implicit Types (h : CanvasHistory.t CanvasObject).
Implicit Types (s cur : list CanvasObject).
Implicit Types (before after : list (list CanvasObject)).

Lemma slice_but_last_snoc {A} (l : list A) x :
  CanvasHistory.slice 0 (Some (-1)%Z) (l ++ [x]) = l.
Proof.
  rewrite slice_but_last, length_app. cbn [length].
  replace (length l + 1 - 1) with (length l) by lia.
  by rewrite take_app_length.
Qed.

Lemma undo_snoc cur before s (redo : list (list CanvasObject)) :
  CanvasHistory.undo (CanvasHistory.mk cur (before ++ [s]) redo)
  = (Some s, CanvasHistory.mk s before (redo ++ [cur])).
Proof.
  unfold CanvasHistory.undo.
  cbn [CanvasHistory.undoStackRef CanvasHistory.redoStackRef
       CanvasHistory.objects].
  by rewrite last_snoc, slice_but_last_snoc.
Qed.

Lemma redo_snoc cur (undo : list (list CanvasObject)) s
    (redo : list (list CanvasObject)) :
  CanvasHistory.redo (CanvasHistory.mk cur undo (redo ++ [s]))
  = (Some s, CanvasHistory.mk s (undo ++ [cur]) redo).
Proof.
  unfold CanvasHistory.redo.
  cbn [CanvasHistory.undoStackRef CanvasHistory.redoStackRef
       CanvasHistory.objects].
  by rewrite last_snoc, slice_but_last_snoc.
Qed.

Lemma stack_cases {A} (l : list A) :
  (l = [] ∧ bool_decide (0 < length l) = false) ∨
  (∃ l' x, l = l' ++ [x] ∧ bool_decide (0 < length l) = true).
Proof.
  destruct l as [|x l] using rev_ind.
  - left. split; [done|]. apply bool_decide_eq_false_2. cbn. lia.
  - right. exists l, x. split; [done|]. apply bool_decide_eq_true_2.
    rewrite length_app. cbn. lia.
Qed.

(** X20. [undo] and [redo] are inverse to each other, and do nothing when
    there is nothing to do.  When [canUndo] holds, [undo] returns the top of
    the Undo stack and a following [redo] returns the state that was
    current and restores the hook exactly (current state and both stacks);
    when it does not hold, [undo] returns [null] and changes nothing.  The
    same with [redo] and [undo] exchanged. *)
Theorem undo_redo_round_trip h :
  (if CanvasHistory.canUndo h
   then (CanvasHistory.undo h).1 = last (CanvasHistory.undoStackRef h) ∧
        is_Some (CanvasHistory.undo h).1 ∧
        CanvasHistory.redo (CanvasHistory.undo h).2
        = (Some (CanvasHistory.objects h), h)
   else CanvasHistory.undo h = (None, h)) ∧
  (if CanvasHistory.canRedo h
   then (CanvasHistory.redo h).1 = last (CanvasHistory.redoStackRef h) ∧
        is_Some (CanvasHistory.redo h).1 ∧
        CanvasHistory.undo (CanvasHistory.redo h).2
        = (Some (CanvasHistory.objects h), h)
   else CanvasHistory.redo h = (None, h)).
Proof.
  destruct h as [cur undo redo].
  unfold CanvasHistory.canUndo, CanvasHistory.canRedo.
  cbn [CanvasHistory.undoStackRef CanvasHistory.redoStackRef
       CanvasHistory.objects].
  split.
  - destruct (stack_cases undo) as [[-> ->]|(undo' & s & -> & ->)]; [done|].
    rewrite undo_snoc. cbn [fst snd]. rewrite last_snoc, redo_snoc.
    by split_and!.
  - destruct (stack_cases redo) as [[-> ->]|(redo' & s & -> & ->)]; [done|].
    rewrite redo_snoc. cbn [fst snd]. rewrite last_snoc, undo_snoc.
    by split_and!.
Qed.

Lemma acts_cons (a : CanvasHistory.Action CanvasObject) l h :
  CanvasHistory.acts (a :: l) h = CanvasHistory.acts l (CanvasHistory.act a h).
Proof. done. Qed.

(** Undoing as many times as the Undo stack is deep: the oldest snapshot
    becomes current, everything newer waits on the Redo stack. *)
Lemma undo_all before cur after :
  CanvasHistory.acts (replicate (length before) CanvasHistory.Undo)
    (CanvasHistory.mk cur before (rev after))
  = match before with
    | [] => CanvasHistory.mk cur [] (rev after)
    | oldest :: rest =>
        CanvasHistory.mk oldest [] (rev (rest ++ cur :: after))
    end.
Proof.
  revert cur after.
  induction before as [|s before IH] using rev_ind; intros cur after;
    [done|].
  rewrite length_app. cbn [length].
  replace (length before + 1) with (S (length before)) by lia.
  cbn [replicate]. rewrite acts_cons. cbn [CanvasHistory.act].
  rewrite undo_snoc. cbn [snd].
  change (rev after ++ [cur]) with (rev (cur :: after)).
  rewrite IH. destruct before as [|oldest rest]; [done|].
  cbn [app]. by rewrite <- app_assoc.
Qed.

(** Redoing as many times as the Redo stack is deep. *)
Lemma redo_all before cur after :
  CanvasHistory.acts (replicate (length after) CanvasHistory.Redo)
    (CanvasHistory.mk cur before (rev after))
  = match last after with
    | None => CanvasHistory.mk cur before []
    | Some newest =>
        CanvasHistory.mk newest (before ++ cur :: removelast after) []
    end.
Proof.
  revert cur before.
  induction after as [|s after IH]; intros cur before; [done|].
  cbn [length replicate]. rewrite acts_cons. cbn [CanvasHistory.act rev].
  rewrite redo_snoc. cbn [snd]. rewrite IH.
  destruct after as [|s' after]; [done|].
  change (last (s :: s' :: after)) with (last (s' :: after)).
  change (removelast (s :: s' :: after))
    with (s :: removelast (s' :: after)).
  destruct (last (s' :: after)) as [newest|] eqn:Hlast.
  - by rewrite <- app_assoc.
  - by apply last_None in Hlast.
Qed.

Lemma commits_objects (states : list (list CanvasObject)) h :
  CanvasHistory.objects
    (CanvasHistory.acts (CanvasHistory.PushState <$> states) h)
  = default (CanvasHistory.objects h) (last states) ∧
  CanvasHistory.redoStackRef
    (CanvasHistory.acts (CanvasHistory.PushState <$> states) h)
  = match states with [] => CanvasHistory.redoStackRef h | _ => [] end.
Proof.
  revert h. induction states as [|s states IH]; intros h; [done|].
  rewrite fmap_cons, acts_cons. cbn [CanvasHistory.act].
  destruct (IH (CanvasHistory.pushState s h)) as [Hobj Hredo].
  rewrite Hobj, Hredo. cbn [CanvasHistory.pushState CanvasHistory.objects
                            CanvasHistory.redoStackRef].
  split; [|by destruct states].
  rewrite last_cons. by destruct (last states).
Qed.

(** X21. Commits can be taken back one by one, up to the capacity.  After
    a fresh hook has committed [n] states, [min n 20] undos reach the
    oldest state still remembered (the state [min n 20] commits back, the
    initial state when [n] is at most 20) and then [canUndo] is false; the
    same number of redos restores the hook exactly as it was after the
    commits. *)
Theorem commits_undone_and_redone (initialObjects : list CanvasObject)
    (states : list (list CanvasObject)) :
  let n := length states in
  let k := n `min` 20 in
  let h := CanvasHistory.acts (CanvasHistory.PushState <$> states)
             (CanvasHistory.useCanvasHistory initialObjects) in
  let back := CanvasHistory.acts (replicate k CanvasHistory.Undo) h in
  (initialObjects :: states) !! (n - k) = Some (CanvasHistory.objects back) ∧
  CanvasHistory.canUndo back = false ∧
  CanvasHistory.redoCount back = k ∧
  CanvasHistory.acts (replicate k CanvasHistory.Redo) back = h.
Proof.
  cbv zeta.
  set (h0 := CanvasHistory.useCanvasHistory initialObjects).
  pose proof (commits_undoStack states h0 [] eq_refl) as Hundo.
  cbv zeta in Hundo. cbn [app] in Hundo.
  destruct (commits_objects states h0) as [Hobj Hredo].
  destruct states as [|s0 states _] using rev_ind; [done|].
  rewrite last_snoc in Hobj. cbn [default from_option] in Hobj.
  change (Datatypes.id s0) with s0 in Hobj.
  change (CanvasHistory.objects h0 :: states ++ [s0])
    with ((initialObjects :: states) ++ [s0]) in Hundo.
  rewrite removelast_last in Hundo.
  change (initialObjects :: states ++ [s0])
    with ((initialObjects :: states) ++ [s0]).
  assert (Hlen : length (initialObjects :: states) = length states + 1)
    by (cbn [length]; lia).
  set (past := initialObjects :: states) in *. clearbody past.
  set (kept := drop (length past - 20) past) in *.
  assert (Hkept : length kept = (length states + 1) `min` 20).
  { subst kept. rewrite length_drop. lia. }
  assert (Hh : CanvasHistory.acts
                 (CanvasHistory.PushState <$> states ++ [s0]) h0
               = CanvasHistory.mk s0 kept []).
  { destruct (CanvasHistory.acts _ h0) as [cur undo redo].
    cbn [CanvasHistory.objects CanvasHistory.undoStackRef
         CanvasHistory.redoStackRef] in *.
    subst cur undo. f_equal. rewrite Hredo. by destruct states. }
  rewrite Hh, length_app. cbn [length]. rewrite <- Hkept.
  pose proof (undo_all kept s0 []) as Hu. cbn [rev] in Hu. rewrite Hu.
  assert (Holdest : ∀ oldest rest, kept = oldest :: rest →
                      past !! (length past - 20) = Some oldest).
  { intros oldest rest Hk.
    pose proof (lookup_drop past (length past - 20) 0) as Hd.
    fold kept in Hd. rewrite Hk, Nat.add_0_r in Hd. by rewrite <- Hd. }
  destruct kept as [|oldest rest]; [cbn in Hkept; lia|].
  specialize (Holdest oldest rest eq_refl).
  cbn [CanvasHistory.objects]. split_and!.
  - rewrite Hkept.
    replace (length states + 1 - (length states + 1) `min` 20)
      with (length past - 20) by lia.
    rewrite lookup_app_l by lia. done.
  - done.
  - unfold CanvasHistory.redoCount. cbn [CanvasHistory.redoStackRef].
    rewrite length_rev, length_app. cbn [length]. lia.
  - replace (length (oldest :: rest)) with (length (rest ++ [s0]))
      by (rewrite length_app; cbn [length]; lia).
    rewrite redo_all. by rewrite last_snoc, removelast_last.
Qed.

End HistoryExtras.

(** * Drawing on the shared map *)

Section MapDrawingExtras.
Context {num extra : Type}.
Import SocketEvents.
Implicit Types (h : CanvasHistory.t (RoomObject.t num extra)) (id : string).

Lemma drags_leave_history id (path : list (num * num)) h :
  let dragged := foldl (λ h xy, MapDrawing.handleObjectDrag id xy.1 xy.2 h)
                   h path in
  CanvasHistory.undoStackRef dragged = CanvasHistory.undoStackRef h ∧
  CanvasHistory.redoStackRef dragged = CanvasHistory.redoStackRef h ∧
  CanvasHistory.objects dragged
  = match last path with
    | Some xy => RoomSync.moved id (ObjectPosition.mk num xy.1 xy.2)
                   (CanvasHistory.objects h)
    | None => CanvasHistory.objects h
    end.
Proof.
  cbv zeta. revert h. induction path as [|xy path IH]; intros h; [done|].
  cbn [foldl]. destruct (IH (MapDrawing.handleObjectDrag id xy.1 xy.2 h))
    as (Hu & Hr & Ho).
  rewrite Hu, Hr, Ho. split_and!; [done..|].
  destruct path as [|xy' path]; [done|].
  change (last (xy :: xy' :: path)) with (last (xy' :: path)).
  destruct (last (xy' :: path)) as [final|] eqn:Hlast.
  - cbn [MapDrawing.handleObjectDrag CanvasHistory.setObjectsWithoutHistory
         CanvasHistory.objects]. apply moved_twice.
  - by apply last_None in Hlast.
Qed.

(** X22. A drag gesture on the shared map is one Undo step, and that step
    goes back to the last drag move.  However many moves the gesture has,
    its end commits once: the Undo stack grows by one entry (up to the
    capacity of 20), the Redo stack is emptied, the object rests at the
    final position, and one [update_object] is emitted if the client is
    connected, none otherwise.  The snapshot [undo] then returns is the
    object list as the last move of the gesture left it, which is the list
    from before the gesture only when the gesture had no move. *)
Theorem drag_gesture_is_one_undo_step (socket isConnected : bool) id
    (path : list (num * num)) (x y : num) h :
  let out := MapDrawing.gesture socket isConnected id path x y h in
  CanvasHistory.objects out.1
    = RoomSync.moved id (ObjectPosition.mk num x y) (CanvasHistory.objects h) ∧
  (CanvasHistory.undo out.1).1
    = Some (match last path with
            | Some xy => RoomSync.moved id (ObjectPosition.mk num xy.1 xy.2)
                           (CanvasHistory.objects h)
            | None => CanvasHistory.objects h
            end) ∧
  CanvasHistory.undoCount out.1 = (CanvasHistory.undoCount h + 1) `min` 20 ∧
  CanvasHistory.redoStackRef out.1 = [] ∧
  out.2 = if socket && isConnected
          then [update_object
                  (UpdateObjectPayload.mk num id (ObjectPosition.mk num x y))]
          else [].
Proof.
  cbv zeta. unfold MapDrawing.gesture, MapDrawing.handleObjectDragEnd.
  destruct (drags_leave_history id path h) as (Hu & Hr & Ho).
  cbv zeta in Hu, Hr, Ho. cbn [fst snd].
  unfold CanvasHistory.undo, CanvasHistory.undoCount.
  rewrite pushState_undoStack, last_snoc, Hu, Ho.
  cbn [fst CanvasHistory.pushState CanvasHistory.objects
       CanvasHistory.redoStackRef].
  split_and!; try done.
  - destruct (last path); [apply moved_twice | done].
  - rewrite length_app, length_drop. cbn [length]. lia.
Qed.

End MapDrawingExtras.

(** * Squads and detachments *)

Section SquadExtras.
Context {num : Type}.
Implicit Types (st : SquadState.t num) (d : Detachment.t num).
Implicit Types (squadId characterId detachmentId newId : string).

Lemma SquadState_eta st :
  SquadState.mk (SquadState.squads st) (SquadState.detachments st) = st.
Proof. by destruct st. Qed.

Lemma alreadyDetached_spec squadId characterId (l : list (Detachment.t num)) :
  existsb (λ d, bool_decide (Detachment.parentSquadId d = squadId)
                && bool_decide (Detachment.characterId d = characterId)) l
  = bool_decide ((squadId, characterId) ∈ SquadState.slot <$> l).
Proof.
  induction l as [|d l IH]; [done|].
  cbn [existsb]. rewrite IH, fmap_cons.
  rewrite (bool_decide_ext _ _ (elem_of_cons _ _ _)), bool_decide_or.
  f_equal. rewrite <- bool_decide_and. apply bool_decide_ext.
  unfold SquadState.slot. split.
  - by intros [<- <-].
  - by intros [= -> ->].
Qed.

Lemma filter_keeps_distinct {A B} (f : A → B) (P : A → Prop)
    `{!∀ x, Decision (P x)} (l : list A) :
  NoDup (f <$> l) → NoDup (f <$> filter P l).
Proof.
  intros Hnd. eapply sublist_NoDup; [exact Hnd|].
  apply fmap_sublist, sublist_filter.
Qed.

Lemma act_keeps_slots_distinct st (a : SquadState.Action num) :
  NoDup (SquadState.slot <$> SquadState.detachments st) →
  NoDup (SquadState.slot <$> SquadState.detachments (SquadState.act st a)).
Proof.
  intros Hnd.
  destruct a as [squad|squadId|squadId characterId x y newId|detachmentId
                |detachmentId x y|squadId x y]; cbn [SquadState.act]; try done.
  - by apply filter_keeps_distinct.
  - unfold SquadState.createDetachment. rewrite alreadyDetached_spec.
    case_bool_decide as Hin; [done|].
    cbn [SquadState.detachments]. rewrite fmap_app. apply NoDup_app.
    split_and!; [done | | apply NoDup_singleton].
    intros slot Hslot ->%list_elem_of_singleton. done.
  - by apply filter_keeps_distinct.
  - cbn [SquadState.updateDetachmentPosition SquadState.detachments].
    rewrite <- list_fmap_compose.
    erewrite list_fmap_ext; [exact Hnd|].
    intros _ d _. cbn. by case_decide.
Qed.

(** X23. No character is detached twice.  Whatever sequence of
    [addSquad], [removeSquad], [createDetachment], [returnToSquad],
    [updateDetachmentPosition] and [updateSquadPosition] the hook has gone
    through since its first render, no two detachments stand for the same
    character of the same squad; in particular a [createDetachment] for a
    character that is already detached changes nothing. *)
Theorem no_character_detached_twice (actions : list (SquadState.Action num))
    squadId characterId (x y : num) newId :
  let st := SquadState.acts actions SquadState.useSquadState in
  NoDup (SquadState.slot <$> SquadState.detachments st) ∧
  ((squadId, characterId) ∈ SquadState.slot <$> SquadState.detachments st →
   SquadState.createDetachment squadId characterId x y newId st = st).
Proof.
  cbv zeta. split.
  - unfold SquadState.acts.
    assert (Hgen : ∀ st, NoDup (SquadState.slot <$> SquadState.detachments st) →
              NoDup (SquadState.slot <$>
                       SquadState.detachments (foldl SquadState.act st actions))).
    { induction actions as [|a actions IH]; intros st Hnd; [done|].
      cbn [foldl]. by apply IH, act_keeps_slots_distinct. }
    apply Hgen. constructor.
  - intros Hin. unfold SquadState.createDetachment.
    rewrite alreadyDetached_spec. by rewrite bool_decide_eq_true_2.
Qed.

Lemma filter_all {A} (P : A → Prop) `{!∀ x, Decision (P x)} (l : list A) :
  Forall P l → filter P l = l.
Proof.
  induction 1 as [|x l Hx _ IH]; [done|].
  by rewrite filter_cons_True, IH.
Qed.

(** X24. A detachment can be given back.  When the id generated for a new
    detachment is not the id of an existing one, [returnToSquad] with that
    id undoes [createDetachment] exactly, whether the character was
    detached by the call or was detached already; and a second
    [createDetachment] for the same character, with whatever position and
    id, changes nothing. *)
Theorem detach_and_return st squadId characterId (x y x' y' : num)
    newId newId' :
  newId ∉ (Detachment.id <$> SquadState.detachments st) →
  let detached :=
    SquadState.createDetachment squadId characterId x y newId st in
  SquadState.returnToSquad newId detached = st ∧
  SquadState.createDetachment squadId characterId x' y' newId' detached
  = detached ∧
  (squadId, characterId)
    ∈ (SquadState.slot <$> SquadState.detachments detached).
Proof.
  intros Hfresh. cbv zeta.
  assert (Hkeep : filter (λ d, Detachment.id d ≠ newId)
                    (SquadState.detachments st)
                  = SquadState.detachments st).
  { apply filter_all, Forall_forall. intros d Hd Hid. apply Hfresh.
    apply list_elem_of_fmap. by exists d. }
  assert (Hslot : (squadId, characterId)
            ∈ (SquadState.slot <$> SquadState.detachments
                 (SquadState.createDetachment squadId characterId x y newId st))).
  { unfold SquadState.createDetachment. rewrite alreadyDetached_spec.
    case_bool_decide as Hin; [done|].
    cbn [SquadState.detachments]. rewrite fmap_app.
    apply elem_of_app. right. by apply list_elem_of_singleton. }
  split_and!; [| |done].
  - unfold SquadState.createDetachment, SquadState.returnToSquad.
    destruct (existsb _ _).
    + by rewrite Hkeep, SquadState_eta.
    + cbn [SquadState.squads SquadState.detachments].
      rewrite filter_app, Hkeep.
      rewrite filter_cons_False by (cbn; intros Hne; by apply Hne).
      rewrite filter_nil, app_nil_r. apply SquadState_eta.
  - unfold SquadState.createDetachment at 1.
    rewrite alreadyDetached_spec. by rewrite bool_decide_eq_true_2.
Qed.

Lemma find_Some_inv {A} (p : A → bool) (l : list A) x :
  List.find p l = Some x → x ∈ l ∧ p x = true.
Proof.
  intros [Hin Hp]%List.find_some. split; [|done]. by apply list_elem_of_In.
Qed.

Lemma find_filter_None {A} (p : A → bool) (P : A → Prop)
    `{!∀ x, Decision (P x)} (l : list A) :
  (∀ x, P x → p x = false) → List.find p (filter P l) = None.
Proof.
  intros Hp. destruct (List.find p (filter P l)) as [x|] eqn:Hfind; [|done].
  apply find_Some_inv in Hfind as [[HP _]%list_elem_of_filter Hpx].
  rewrite Hp in Hpx by done. discriminate.
Qed.

(** X25. Removing a squad removes everything that hangs on it.  After
    [removeSquad] no squad and no detachment carries the squad id (all the
    squads with that id go, all their detachments with them), every other
    squad and detachment is kept, no character can be looked up in the
    squad, and no detachment resolves to a squad with that id. *)
Theorem removeSquad_cascades st squadId :
  let after := SquadState.removeSquad squadId st in
  (∀ s, s ∈ SquadState.squads after ↔
        s ∈ SquadState.squads st ∧ Squad.id s ≠ squadId) ∧
  (∀ d, d ∈ SquadState.detachments after ↔
        d ∈ SquadState.detachments st ∧ Detachment.parentSquadId d ≠ squadId) ∧
  (∀ characterId,
     SquadState.getCharacterFromSquad squadId characterId after = None) ∧
  (∀ detachmentId squad,
     SquadState.getSquadByDetachment detachmentId after = Some squad →
     Squad.id squad ≠ squadId ∧ squad ∈ SquadState.squads st).
Proof.
  cbv zeta. unfold SquadState.removeSquad. split_and!.
  - intros s. cbn [SquadState.squads]. rewrite list_elem_of_filter. tauto.
  - intros d. cbn [SquadState.detachments]. rewrite list_elem_of_filter. tauto.
  - intros characterId. unfold SquadState.getCharacterFromSquad.
    cbn [SquadState.squads]. rewrite find_filter_None; [done|].
    intros s Hs. by apply bool_decide_eq_false_2.
  - intros detachmentId squad. unfold SquadState.getSquadByDetachment.
    cbn [SquadState.squads SquadState.detachments].
    destruct (List.find _ (filter _ (SquadState.detachments st)));
      [|done].
    intros [[Hne Hin]%list_elem_of_filter _]%find_Some_inv. done.
Qed.

Lemma find_new_detachment (l : list (Detachment.t num)) d :
  Detachment.id d ∉ (Detachment.id <$> l) →
  List.find (λ d', bool_decide (Detachment.id d' = Detachment.id d))
    (l ++ [d])
  = Some d.
Proof.
  induction l as [|d' l IH]; intros Hfresh.
  - cbn. by rewrite bool_decide_eq_true_2.
  - rewrite fmap_cons in Hfresh.
    apply not_elem_of_cons in Hfresh as [Hne Hfresh].
    cbn [app List.find]. rewrite bool_decide_eq_false_2 by congruence.
    by apply IH.
Qed.

(** X26. What a new detachment resolves to.  After [createDetachment] has
    detached a character under a new id, [getSquadByDetachment] for that id
    is the first squad that carries the squad id, and [undefined] when
    there is none: [createDetachment] itself checks neither that the squad
    nor that the character exists. *)
Theorem new_detachment_resolves_to_parent st squadId characterId (x y : num)
    newId :
  newId ∉ (Detachment.id <$> SquadState.detachments st) →
  (squadId, characterId)
    ∉ (SquadState.slot <$> SquadState.detachments st) →
  let detached :=
    SquadState.createDetachment squadId characterId x y newId st in
  SquadState.detachments detached
    = SquadState.detachments st
        ++ [Detachment.mk num newId squadId characterId x y] ∧
  SquadState.getSquadByDetachment newId detached
    = List.find (λ s, bool_decide (Squad.id s = squadId))
        (SquadState.squads st).
Proof.
  intros Hfresh Hfree. cbv zeta. unfold SquadState.createDetachment.
  rewrite alreadyDetached_spec, bool_decide_eq_false_2 by done.
  split; [done|]. unfold SquadState.getSquadByDetachment.
  cbn [SquadState.squads SquadState.detachments].
  pose proof (find_new_detachment (SquadState.detachments st)
                (Detachment.mk num newId squadId characterId x y) Hfresh)
    as Hfind.
  cbn [Detachment.id] in Hfind.
  by rewrite Hfind.
Qed.

End SquadExtras.

(** * Concrete instances of the further properties *)

(** A concrete room is consistent: its keys are distinct and every entry
    is filed under the id of its object. *)
Ltac consistent_by_computation :=
  unfold StoreModel.consistent; vm_compute;
  split; [by_computation | repeat constructor].

Lemma addObject_listing_witness :
  RoomManager.getRoomObjects "r"
    (RoomManager.addObject "r" MoreRuns.o3 MoreRuns.store_r)
  = [Runs.o1; Runs.o2; MoreRuns.o3] ∧
  RoomManager.getRoomObjects "r"
    (RoomManager.addObject "r" MoreRuns.o2_again MoreRuns.store_r)
  = [Runs.o1; MoreRuns.o2_again].
Proof.
  assert (Hc : StoreModel.consistent "r" MoreRuns.store_r)
    by consistent_by_computation.
  split.
  - rewrite (addObject_listing MoreRuns.store_r "r" MoreRuns.o3 Hc).
    vm_compute. reflexivity.
  - rewrite (addObject_listing MoreRuns.store_r "r" MoreRuns.o2_again Hc).
    vm_compute. reflexivity.
Defined.


Lemma deleteObject_found_witness :
  let out := RoomManager.deleteObject "r" "o1" MoreRuns.store_r in
  out.1 = true ∧
  StoreModel.find "r" "o1" out.2 = None ∧
  RoomManager.getRoomObjects "r" out.2 = [Runs.o2] ∧
  RoomManager.deleteObject "r" "o1" out.2 = (false, out.2).
Proof.
  cbv zeta.
  assert (Hc : StoreModel.consistent "r" MoreRuns.store_r)
    by consistent_by_computation.
  destruct (deleteObject_found MoreRuns.store_r "r" "o1" Runs.o1 Hc eq_refl)
    as (Htrue & Hgone & Hlist & Hagain).
  split_and!; [exact Htrue | exact Hgone | | exact Hagain].
  rewrite Hlist. vm_compute. reflexivity.
Defined.

Lemma update_listing_is_moved_witness :
  RoomManager.getRoomObjects "r"
    (RoomManager.updateObjectPosition "r" "o2" Runs.at_60_70
       MoreRuns.store_r).2
  = [Runs.o1; RoomObject.mk Z unit "o2" 60%Z 70%Z "catapult" tt] ∧
  (RoomManager.updateObjectPosition "r" "o9" Runs.at_60_70
     MoreRuns.store_r).1 ≠ true.
Proof.
  assert (Hc : StoreModel.consistent "r" MoreRuns.store_r)
    by consistent_by_computation.
  split.
  - rewrite (proj1 (update_listing_is_moved MoreRuns.store_r "r" "o2"
                      Runs.at_60_70 Hc)).
    vm_compute. reflexivity.
  - intros Htrue.
    apply (proj2 (update_listing_is_moved MoreRuns.store_r "r" "o9"
                    Runs.at_60_70 Hc)) in Htrue.
    revert Htrue. by_computation.
Defined.

Lemma join_checkpoint_witness :
  let out := Relay.handle "C" (Relay.event (SocketEvents.join_room "r"))
               (Relay.handle "C" Relay.connection Runs.two_joined).1 in
  Wire.inbox "C" "C" out = [SocketEvents.room_state [Runs.o1]] ∧
  Wire.inbox "A" "C" out = [] ∧
  RoomSync.objects (Wire.receive_all (Wire.inbox "C" "C" out) MoreRuns.offline)
    = [Runs.o1].
Proof.
  cbv zeta.
  destruct (join_checkpoint
              (Relay.handle "C" Relay.connection Runs.two_joined).1 "C"
              (Relay.mkSocket None {["C"]}) "r" MoreRuns.offline eq_refl)
    as (Hmine & Hothers & _ & _ & _ & Hmirror).
  split_and!.
  - rewrite Hmine. vm_compute. reflexivity.
  - apply Hothers. discriminate.
  - rewrite Hmirror. vm_compute. reflexivity.
Defined.

Lemma only_own_room_changes_witness :
  ∃ ev, Relay.event (SocketEvents.create_object MoreRuns.o3) = Relay.event ev ∧
        Relay.is_mutation ev = true ∧
        Relay.room_of "A" Runs.two_joined = Some "r".
Proof.
  apply (only_own_room_changes Runs.two_joined "A"
           (Relay.event (SocketEvents.create_object MoreRuns.o3)) "r").
  vm_compute. discriminate.
Defined.

Lemma rejoin_keeps_listening_witness :
  let st2 := Wire.deliver "A"
               [SocketEvents.join_room "r"; SocketEvents.join_room "s"]
               (Wire.deliver "B" [SocketEvents.join_room "r"] MoreRuns.lobby) in
  Relay.room_of "A" st2 = Some "s" ∧
  "A" ∈ Relay.members "r" st2 ∧
  Wire.inbox "A" "B"
    (Relay.handle "B" (Relay.event (SocketEvents.create_object Runs.o1)) st2)
  = [SocketEvents.object_created Runs.o1].
Proof.
  cbv zeta.
  destruct (rejoin_keeps_listening
              (Wire.deliver "B" [SocketEvents.join_room "r"] MoreRuns.lobby)
              "A" (Relay.mkSocket None {["A"]}) "r" "s" eq_refl
              ltac:(discriminate))
    as (Hroom & Hr & _ & Hpeer).
  split_and!; [exact Hroom | exact Hr |].
  apply (Hpeer "B" Runs.o1); [discriminate | vm_compute; reflexivity].
Defined.

Lemma empty_room_id_is_no_room_witness :
  let st1 := (Relay.handle "A" (Relay.event (SocketEvents.join_room ""))
                MoreRuns.lobby).1 in
  let out := Relay.handle "A"
               (Relay.event (SocketEvents.create_object Runs.o1)) st1 in
  Relay.room_of "A" st1 = None ∧ out.1 = st1 ∧
  Wire.inbox "B" "A" out = [].
Proof.
  cbv zeta.
  destruct (empty_room_id_is_no_room MoreRuns.lobby "A"
              (Relay.mkSocket None {["A"]})
              (SocketEvents.create_object Runs.o1) eq_refl eq_refl)
    as (Hroom & Hsame & _ & Hinbox).
  split_and!; [exact Hroom | exact Hsame | apply Hinbox].
Defined.

Lemma peer_mirror_tracks_update_witness :
  let out := Relay.handle "A"
               (Relay.event (SocketEvents.update_object
                               (UpdateObjectPayload.mk Z "o1" Runs.at_50_50)))
               Runs.two_joined in
  RoomSync.objects (Wire.receive_all (Wire.inbox "B" "A" out) Runs.idle)
  = [RoomObject.mk Z unit "o1" 50%Z 50%Z "x" tt] ∧
  RoomManager.getRoomObjects "r" (Relay.roomManager out.1)
  = [RoomObject.mk Z unit "o1" 50%Z 50%Z "x" tt].
Proof.
  cbv zeta.
  assert (Hc : StoreModel.consistent "r" (Relay.roomManager Runs.two_joined))
    by consistent_by_computation.
  assert (Hpeer : "B" ∈ Relay.members "r" Runs.two_joined)
    by (vm_compute; reflexivity).
  rewrite (peer_mirror_tracks_update Runs.two_joined "A" "B" "r" Runs.idle
             (UpdateObjectPayload.mk Z "o1" Runs.at_50_50)
             Hc eq_refl Hpeer ltac:(discriminate) eq_refl).
  split; vm_compute; reflexivity.
Defined.

Lemma peer_mirror_tracks_create_witness :
  let out := Relay.handle "A"
               (Relay.event (SocketEvents.create_object MoreRuns.o3))
               Runs.two_joined in
  RoomSync.objects (Wire.receive_all (Wire.inbox "B" "A" out) Runs.idle)
  = [Runs.o1; MoreRuns.o3] ∧
  RoomManager.getRoomObjects "r" (Relay.roomManager out.1)
  = [Runs.o1; MoreRuns.o3].
Proof.
  cbv zeta.
  assert (Hc : StoreModel.consistent "r" (Relay.roomManager Runs.two_joined))
    by consistent_by_computation.
  assert (Hpeer : "B" ∈ Relay.members "r" Runs.two_joined)
    by (vm_compute; reflexivity).
  assert (Hfresh : RoomObject.id MoreRuns.o3
            ∉ (RoomObject.id <$> RoomManager.getRoomObjects "r"
                 (Relay.roomManager Runs.two_joined)))
    by by_computation.
  destruct (peer_mirror_tracks_create Runs.two_joined "A" "B" "r" Runs.idle
              MoreRuns.o3 Hc eq_refl Hpeer ltac:(discriminate) eq_refl Hfresh)
    as [Hmirror Hlist].
  rewrite Hmirror, Hlist. split; vm_compute; reflexivity.
Defined.

Lemma optimistic_edits_agree_witness :
  let dragged := RoomSync.handleDragEnd "o1" Runs.at_50_50 1700000000000
                   Runs.idle in
  let created := RoomSync.createObject MoreRuns.o3 Runs.idle in
  RoomManager.getRoomObjects "r"
    (Relay.roomManager (Wire.deliver "A" dragged.2 Runs.two_joined))
  = [RoomObject.mk Z unit "o1" 50%Z 50%Z "x" tt] ∧
  RoomManager.getRoomObjects "r"
    (Relay.roomManager (Wire.deliver "A" created.2 Runs.two_joined))
  = [Runs.o1; MoreRuns.o3].
Proof.
  cbv zeta.
  assert (Hc : StoreModel.consistent "r" (Relay.roomManager Runs.two_joined))
    by consistent_by_computation.
  assert (Hfresh : RoomObject.id MoreRuns.o3
            ∉ (RoomObject.id <$> RoomManager.getRoomObjects "r"
                 (Relay.roomManager Runs.two_joined)))
    by by_computation.
  destruct (optimistic_edits_agree Runs.two_joined "A" "r" Runs.idle "o1"
              Runs.at_50_50 1700000000000 MoreRuns.o3
              eq_refl eq_refl Hc eq_refl eq_refl Hfresh)
    as [Hdrag Hcreate].
  rewrite <- Hdrag, <- Hcreate. split; vm_compute; reflexivity.
Defined.

Lemma forced_emission_restarts_window_witness :
  let forced := RoomSync.emitUpdateObjectForce "o1" Runs.at_50_50
                  1700000000003 Runs.dragging in
  forced.2 = [SocketEvents.update_object
                (UpdateObjectPayload.mk Z "o1" Runs.at_50_50)] ∧
  RoomSync.emitUpdateObject "o1" Runs.at_60_70 1700000000018 forced.1
  = (forced.1, []).
Proof.
  cbv zeta.
  destruct (forced_emission_restarts_window Runs.dragging "o1"
              Runs.at_50_50 Runs.at_60_70 1700000000003 1700000000018
              eq_refl eq_refl)
    as (Hout & _ & _ & _ & Hquick & _).
  split; [exact Hout|]. apply Hquick. vm_compute. reflexivity.
Defined.

Lemma offline_edits_stay_local_witness :
  let move := RoomSync.handleDragMove "o1" Runs.at_50_50 1700000000000
                MoreRuns.offline in
  let made := RoomSync.createObject MoreRuns.o3 MoreRuns.offline in
  move.2 = [] ∧ made.2 = [] ∧
  RoomSync.objects move.1 = [RoomObject.mk Z unit "o1" 50%Z 50%Z "x" tt] ∧
  RoomSync.objects made.1 = [Runs.o1; MoreRuns.o3].
Proof.
  cbv zeta.
  destruct (offline_edits_stay_local MoreRuns.offline "o1" Runs.at_50_50
              1700000000000 MoreRuns.o3 eq_refl)
    as (Hmove & _ & Hmade & _ & _ & _ & Hmoved & _ & Happended).
  split_and!; [exact Hmove | exact Hmade | |].
  - rewrite Hmoved. vm_compute. reflexivity.
  - rewrite Happended. vm_compute. reflexivity.
Defined.

Lemma detach_and_return_witness :
  let detached := SquadState.createDetachment "squad-1" "char-1"
                    150%Z 150%Z "detach-1" MoreRuns.one_squad in
  length (SquadState.detachments detached) = 1 ∧
  SquadState.returnToSquad "detach-1" detached = MoreRuns.one_squad ∧
  SquadState.createDetachment "squad-1" "char-1" 200%Z 200%Z "detach-2"
    detached = detached.
Proof.
  cbv zeta. split; [reflexivity|].
  assert (Hfresh : "detach-1"
            ∉ (Detachment.id <$> SquadState.detachments MoreRuns.one_squad))
    by by_computation.
  destruct (detach_and_return MoreRuns.one_squad "squad-1" "char-1"
              150%Z 150%Z 200%Z 200%Z "detach-1" "detach-2" Hfresh)
    as (Hback & Hsame & _).
  split; [exact Hback | exact Hsame].
Defined.

Lemma new_detachment_resolves_to_parent_witness :
  SquadState.getSquadByDetachment "detach-1"
    (SquadState.createDetachment "squad-1" "char-1" 150%Z 150%Z "detach-1"
       MoreRuns.one_squad)
  = Some MoreRuns.squad1 ∧
  SquadState.getSquadByDetachment "detach-7"
    (SquadState.createDetachment "squad-9" "char-1" 150%Z 150%Z "detach-7"
       MoreRuns.one_squad)
  = None.
Proof.
  assert (Hfresh : ∀ newId, newId
            ∉ (Detachment.id <$> SquadState.detachments MoreRuns.one_squad)).
  { intros newId. vm_compute. apply not_elem_of_nil. }
  assert (Hfree : ∀ slot, slot
            ∉ (SquadState.slot <$> SquadState.detachments MoreRuns.one_squad)).
  { intros slot. vm_compute. apply not_elem_of_nil. }
  split.
  - rewrite (proj2 (new_detachment_resolves_to_parent MoreRuns.one_squad
                      "squad-1" "char-1" 150%Z 150%Z "detach-1"
                      (Hfresh _) (Hfree _))).
    vm_compute. reflexivity.
  - rewrite (proj2 (new_detachment_resolves_to_parent MoreRuns.one_squad
                      "squad-9" "char-1" 150%Z 150%Z "detach-7"
                      (Hfresh _) (Hfree _))).
    vm_compute. reflexivity.
Defined.
